(** * Streaming invocation aggregator and suggestion merger

    A shallow embedding of [server/app/internal/ai_enhanced.py]: the loop that
    rebuilds tool invocations from streamed deltas, the dispatcher that turns
    completed invocations into suggestions and diagram insertions, and the
    chat variant that also passes plain text through.

    Python objects that come out of [json.loads] are embedded as [Py.value];
    exceptions are an explicit [Py.result], those of [json.loads] included;
    the insertion-ordered dictionary [current_function_calls] is an
    association list whose order is the order of first insertion, as for a
    Python [dict]. *)

From Stdlib Require Import List String Ascii ZArith Bool Lia Sorted Permutation SpecFloat
  DecimalString.
Import ListNotations.

Local Open Scope string_scope.
Local Open Scope list_scope.
Local Open Scope Z_scope.

(** ** Python values, truthiness and exceptions *)

Module Py.

(** The values [json.loads] can return: [None], [bool], [int], [float],
    [str], [list] and [dict] (string keys, insertion ordered). *)
#[warnings="-register-all"]
Inductive value : Type :=
| VNone
| VBool (b : bool)
| VInt (n : Z)
| VFloat (f : spec_float)
| VStr (s : string)
| VList (items : list value)
| VDict (entries : list (string * value)).

(** The exceptions met in these sources.  [JSONDecodeError] is the one
    class the handlers around [json.loads] name; it is kept apart from the
    plain [ValueError] it derives from, which those handlers do not catch. *)
Inductive exn : Type :=
| AttributeError
| TypeError
| ValueError
| JSONDecodeError
| RecursionError.

Inductive result (A : Type) : Type :=
| Ok (a : A)
| Raise (e : exn).
Arguments Ok {A} a.
Arguments Raise {A} e.

Definition bind {A B} (r : result A) (k : A -> result B) : result B :=
  match r with
  | Ok a => k a
  | Raise e => Raise e
  end.

(** [bool(v)]. *)
Definition truthy (v : value) : bool :=
  match v with
  | VNone => false
  | VBool b => b
  | VInt n => negb (n =? 0)
  | VFloat (S754_zero _) => false
  | VFloat _ => true
  | VStr s => negb (s =? "")%string
  | VList items => match items with [] => false | _ :: _ => true end
  | VDict entries => match entries with [] => false | _ :: _ => true end
  end.

(** Truthiness of an [Optional[str]] attribute. *)
Definition str_truthy (o : option string) : bool :=
  match o with
  | Some s => negb (s =? "")%string
  | None => false
  end.

(** [o or ""] for an [Optional[str]]. *)
Definition or_empty (o : option string) : string :=
  match o with
  | Some s => s
  | None => ""
  end.

Fixpoint lookup (k : string) (entries : list (string * value)) : option value :=
  match entries with
  | [] => None
  | (k', v) :: rest => if (k' =? k)%string then Some v else lookup k rest
  end.

(** [d.get(k, default)] on a dict. *)
Definition dict_get (entries : list (string * value)) (k : string) (default : value) : value :=
  match lookup k entries with
  | Some v => v
  | None => default
  end.

(** [v.get(k, default)] on an arbitrary value: only a dict has [get]. *)
Definition get (v : value) (k : string) (default : value) : result value :=
  match v with
  | VDict entries => Ok (dict_get entries k default)
  | _ => Raise AttributeError
  end.

Fixpoint chars (s : string) : list value :=
  match s with
  | EmptyString => []
  | String c rest => VStr (String c EmptyString) :: chars rest
  end.

(** [iter(v)]: lists give their items, dicts their keys, strings their
    characters; the other values are not iterable. *)
Definition iter (v : value) : result (list value) :=
  match v with
  | VList items => Ok items
  | VDict entries => Ok (map (fun kv => VStr (fst kv)) entries)
  | VStr s => Ok (chars s)
  | _ => Raise TypeError
  end.

(** [[f(x) for x in xs]] with a body that may raise. *)
Fixpoint comprehension {A B} (f : A -> result B) (xs : list A) : result (list B) :=
  match xs with
  | [] => Ok []
  | x :: rest =>
      bind (f x) (fun y => bind (comprehension f rest) (fun ys => Ok (y :: ys)))
  end.

(** Lists and dicts are unhashable. *)
Definition hashable (v : value) : bool :=
  match v with
  | VList _ | VDict _ => false
  | _ => true
  end.

(** [sep.join(items)]: every item has to be a [str]. *)
Fixpoint strings (items : list value) : result (list string) :=
  match items with
  | [] => Ok []
  | VStr s :: rest => bind (strings rest) (fun ss => Ok (s :: ss))
  | _ :: _ => Raise TypeError
  end.

Definition join (sep : string) (items : list value) : result string :=
  bind (strings items) (fun ss => Ok (String.concat sep ss)).

(** [max(xs, key=...)]: the running best is replaced only by a strictly
    larger key, so the first maximal element is returned; the keys are
    computed beforehand, in order; an empty argument is a [ValueError]. *)
Fixpoint max_loop {A} (best : A) (best_key : Z) (rest : list (A * Z)) : A :=
  match rest with
  | [] => best
  | (x, k) :: rest' =>
      if k >? best_key then max_loop x k rest' else max_loop best best_key rest'
  end.

Definition max_by {A} (key : A -> result Z) (xs : list A) : result A :=
  bind (comprehension (fun x => bind (key x) (fun k => Ok (x, k))) xs)
       (fun keyed =>
          match keyed with
          | [] => Raise ValueError
          | (x, k) :: rest => Ok (max_loop x k rest)
          end).

End Py.

Import Py.

Notation "x <- c1 ;; c2" := (Py.bind c1 (fun x => c2))
  (at level 61, c1 at next level, right associativity).

(** ** The delta stream *)

(** [tool_call.index], [tool_call.function.name], [tool_call.function.arguments]. *)
Record ToolCall : Type := mkToolCall {
  index : Z;
  function_name : option string;
  function_arguments : option string
}.

(** [chunk.choices[0].delta]: optional text and optional tool-call fragments. *)
Record Delta : Type := mkDelta {
  content : option string;
  tool_calls : option (list ToolCall)
}.

(** The dict [{"name": ..., "arguments": ...}] of one invocation. *)
Record FunctionCall : Type := mkFunctionCall {
  name : string;
  arguments : string
}.

(** ** The insertion-ordered dictionary [current_function_calls] *)

Module Slots.

Definition t : Type := list (Z * FunctionCall).

Fixpoint find (k : Z) (d : t) : option FunctionCall :=
  match d with
  | [] => None
  | (k', v) :: rest => if k' =? k then Some v else find k rest
  end.

(** [d[k] = v]: an existing key keeps its position, a new key goes last. *)
Fixpoint set (k : Z) (v : FunctionCall) (d : t) : t :=
  match d with
  | [] => [(k, v)]
  | (k', v') :: rest =>
      if k' =? k then (k', v) :: rest else (k', v') :: set k v rest
  end.

Definition keys (d : t) : list Z := map fst d.
Definition values (d : t) : list FunctionCall := map snd d.

End Slots.

(** ** The aggregation loop (lines 65-101 and 283-314) *)

(** The loop state: the list [function_calls] and the dict
    [current_function_calls].  An invocation appended to [function_calls] on
    slot reuse is not aliased afterwards, because the key is rebound to a
    fresh dict on the next line; values are therefore copied here. *)
Definition AggState : Type := (list FunctionCall * Slots.t)%type.

(** Body of [for tool_call in delta.tool_calls]. *)
Definition on_tool_call (st : AggState) (tool_call : ToolCall) : AggState :=
  let '(function_calls, current_function_calls) := st in
  let call_index := index tool_call in
  if str_truthy (function_name tool_call) then
    let function_calls' :=
      match Slots.find call_index current_function_calls with
      | Some previous => function_calls ++ [previous]
      | None => function_calls
      end in
    (function_calls',
     Slots.set call_index
       {| name := or_empty (function_name tool_call);
          arguments := or_empty (function_arguments tool_call) |}
       current_function_calls)
  else
    match Slots.find call_index current_function_calls with
    | Some pending =>
        (function_calls,
         Slots.set call_index
           {| name := name pending;
              arguments := (arguments pending ++ or_empty (function_arguments tool_call))%string |}
           current_function_calls)
    | None => st
    end.

(** [if delta.tool_calls: for tool_call in delta.tool_calls: ...] *)
Definition on_delta_tool_calls (st : AggState) (delta : Delta) : AggState :=
  match tool_calls delta with
  | Some (tc :: tcs) => fold_left on_tool_call (tc :: tcs) st
  | _ => st
  end.

(** The state after [async for chunk in stream]. *)
Definition run_stream (stream : list Delta) : AggState :=
  fold_left on_delta_tool_calls stream ([], []).

(** [for call_index, func_call in current_function_calls.items():
       function_calls.append(func_call)] *)
Definition flush (st : AggState) : list FunctionCall :=
  fst st ++ Slots.values (snd st).

(** [function_calls] after the flush at the end of the stream. *)
Definition collect_function_calls (stream : list Delta) : list FunctionCall :=
  flush (run_stream stream).

(** ** A reader for a fragment of JSON

    [json.loads] itself is a parameter of the cycles below: a function from
    the text to the value returned or the exception raised.  [Json.loads]
    is an instance of it for the fragment without escapes, fractions,
    exponents and the literals [NaN] and [Infinity], on which the
    development is run on concrete wire text.  Inside the fragment it
    follows the library: no leading zeros, no control characters in a
    string, a repeated key takes the last value, and an integer literal of
    more than 4300 digits is refused by [int] with a plain [ValueError]
    (the default of [sys.set_int_max_str_digits] since Python 3.11).  The
    [RecursionError] of the library on deep nesting depends on the
    interpreter's stack and is not reproduced. *)

Module Json.

Definition quote : ascii := ascii_of_nat 34.

(** [q s] is [s] between double quotes. *)
Definition q (s : string) : string :=
  String quote (s ++ String quote EmptyString).

Definition is_space (c : ascii) : bool :=
  let n := nat_of_ascii c in
  (Nat.eqb n 32 || Nat.eqb n 9 || Nat.eqb n 10 || Nat.eqb n 13)%bool.

Definition digit (c : ascii) : option Z :=
  let n := Z.of_nat (nat_of_ascii c) in
  if (48 <=? n) && (n <=? 57) then Some (n - 48) else None.

Fixpoint skip_space (s : string) : string :=
  match s with
  | String c rest => if is_space c then skip_space rest else s
  | EmptyString => s
  end.

(** The text after an opening quote, up to the closing one. *)
Fixpoint read_text (s : string) : option (string * string) :=
  match s with
  | EmptyString => None
  | String c rest =>
      if Ascii.eqb c quote then Some (EmptyString, rest)
      else if Nat.eqb (nat_of_ascii c) 92 then None
      else if Nat.ltb (nat_of_ascii c) 32 then None
      else match read_text rest with
           | Some (body, rest') => Some (String c body, rest')
           | None => None
           end
  end.

(** The digits at the head of [s]: their value, their number and the rest. *)
Fixpoint read_digits (acc : Z) (count : Z) (s : string) : Z * Z * string :=
  match s with
  | String c rest =>
      match digit c with
      | Some d => read_digits (10 * acc + d) (count + 1) rest
      | None => (acc, count, s)
      end
  | EmptyString => (acc, count, s)
  end.

(** [sys.int_info.default_max_str_digits] *)
Definition max_str_digits : Z := 4300.

(** An integer literal: a single [0], or digits that start with a non-zero
    one.  The conversion of the matched digits is where [int] raises. *)
Definition read_number (s : string) : result (Z * string) :=
  match s with
  | String c rest =>
      match digit c with
      | Some d =>
          if d =? 0 then Ok (0, rest)
          else
            let '(n, count, rest') := read_digits 0 0 s in
            if count >? max_str_digits then Raise ValueError else Ok (n, rest')
      | None => Raise JSONDecodeError
      end
  | EmptyString => Raise JSONDecodeError
  end.

Fixpoint strip (prefix s : string) : option string :=
  match prefix, s with
  | EmptyString, _ => Some s
  | String a prefix', String b s' => if Ascii.eqb a b then strip prefix' s' else None
  | String _ _, EmptyString => None
  end.

(** A repeated key keeps its first position and takes the last value. *)
Fixpoint put (k : string) (v : value) (entries : list (string * value))
  : list (string * value) :=
  match entries with
  | [] => [(k, v)]
  | (k', v') :: rest =>
      if (k' =? k)%string then (k', v) :: rest else (k', v') :: put k v rest
  end.

Fixpoint read_value (fuel : nat) (s : string) : result (value * string) :=
  match fuel with
  | O => Raise JSONDecodeError
  | S fuel' =>
      match skip_space s with
      | EmptyString => Raise JSONDecodeError
      | String c rest =>
          if Ascii.eqb c quote then
            match read_text rest with
            | Some (body, rest') => Ok (VStr body, rest')
            | None => Raise JSONDecodeError
            end
          else if Ascii.eqb c "[" then
            match skip_space rest with
            | String "]" rest' => Ok (VList [], rest')
            | _ => match read_items fuel' rest with
                   | Ok (items, rest') => Ok (VList items, rest')
                   | Raise e => Raise e
                   end
            end
          else if Ascii.eqb c "{" then
            match skip_space rest with
            | String "}" rest' => Ok (VDict [], rest')
            | _ => match read_members fuel' [] rest with
                   | Ok (entries, rest') => Ok (VDict entries, rest')
                   | Raise e => Raise e
                   end
            end
          else if Ascii.eqb c "-" then
            match read_number rest with
            | Ok (n, rest') => Ok (VInt (- n), rest')
            | Raise e => Raise e
            end
          else
            match digit c with
            | Some _ =>
                match read_number (String c rest) with
                | Ok (n, rest') => Ok (VInt n, rest')
                | Raise e => Raise e
                end
            | None =>
                match strip "true" (String c rest) with
                | Some rest' => Ok (VBool true, rest')
                | None =>
                    match strip "false" (String c rest) with
                    | Some rest' => Ok (VBool false, rest')
                    | None =>
                        match strip "null" (String c rest) with
                        | Some rest' => Ok (VNone, rest')
                        | None => Raise JSONDecodeError
                        end
                    end
                end
            end
      end
  end
with read_items (fuel : nat) (s : string) : result (list value * string) :=
  match fuel with
  | O => Raise JSONDecodeError
  | S fuel' =>
      match read_value fuel' s with
      | Ok (v, rest) =>
          match skip_space rest with
          | String "," rest' =>
              match read_items fuel' rest' with
              | Ok (vs, rest'') => Ok (v :: vs, rest'')
              | Raise e => Raise e
              end
          | String "]" rest' => Ok ([v], rest')
          | _ => Raise JSONDecodeError
          end
      | Raise e => Raise e
      end
  end
with read_members (fuel : nat) (acc : list (string * value)) (s : string)
  : result (list (string * value) * string) :=
  match fuel with
  | O => Raise JSONDecodeError
  | S fuel' =>
      match skip_space s with
      | String c rest =>
          if Ascii.eqb c quote then
            match read_text rest with
            | Some (k, rest1) =>
                match skip_space rest1 with
                | String ":" rest2 =>
                    match read_value fuel' rest2 with
                    | Ok (v, rest3) =>
                        match skip_space rest3 with
                        | String "," rest4 => read_members fuel' (put k v acc) rest4
                        | String "}" rest4 => Ok (put k v acc, rest4)
                        | _ => Raise JSONDecodeError
                        end
                    | Raise e => Raise e
                    end
                | _ => Raise JSONDecodeError
                end
            | None => Raise JSONDecodeError
            end
          else Raise JSONDecodeError
      | EmptyString => Raise JSONDecodeError
      end
  end.

(** [json.loads(s)]: one value, then nothing but white space. *)
Definition loads (s : string) : result value :=
  match read_value (S (S (String.length s + String.length s))) s with
  | Ok (v, rest) =>
      match skip_space rest with
      | EmptyString => Ok v
      | String _ _ => Raise JSONDecodeError
      end
  | Raise e => Raise e
  end.

(** Wire text of an object with the given members, already serialized. *)
Definition object (members : list (string * string)) : string :=
  ("{" ++ String.concat ", " (map (fun kv => q (fst kv) ++ ": " ++ snd kv) members) ++ "}")%string.

Definition array (items : list string) : string :=
  ("[" ++ String.concat ", " items ++ "]")%string.

End Json.

(** A printer for the same fragment, an instance of [json.dumps] on which
    the endpoints are run on concrete values (text without escapes, no
    floats). *)

Module JsonOut.

Fixpoint dumps (v : value) : string :=
  match v with
  | VNone => "null"
  | VBool true => "true"
  | VBool false => "false"
  | VInt n => NilZero.string_of_int (Z.to_int n)
  | VFloat _ => "NaN"
  | VStr s => Json.q s
  | VList items => Json.array (map dumps items)
  | VDict entries =>
      Json.object (map (fun kv => match kv with (k, x) => (k, dumps x) end) entries)
  end.

End JsonOut.

(** ** Yielded strings

    A yielded string is kept as the pieces it is concatenated from: [str]
    and [json.dumps] are the library's and stay symbolic. *)

Inductive piece : Type :=
| Lit (s : string)
| Str (v : value)
| Dumps (ensure_ascii : bool) (v : value).

Definition chunk : Type := list piece.

(** What a generator did: the values it yielded, and the exception that
    ended it, if one did. *)
Record Generated : Type := mkGenerated {
  yielded : list chunk;
  raised : option exn
}.

(** ** The review and chat cycles *)

Section Cycle.

(** [json.loads] belongs to the Python library and enters as a parameter:
    the value it returns, or the exception it raises, which is
    [JSONDecodeError] for text that is not JSON and can be another one
    ([RecursionError] on deep nesting, a plain [ValueError] on an integer
    literal beyond the digit limit). *)
Variable json_loads : string -> result value.

(** [v[:n]] for logging: only sequences can be sliced (a dict raises too,
    [TypeError] up to Python 3.11). *)
Definition sliceable (v : value) : result unit :=
  match v with
  | VStr _ | VList _ => Ok tt
  | _ => Raise TypeError
  end.

(** *** The suggestion merger (lines 119-152) *)

(** [severity_order = {"high": 3, "medium": 2, "low": 1}] *)
Definition severity_order : list (string * Z) :=
  [("high", 3); ("medium", 2); ("low", 1)].

Fixpoint order_lookup (k : string) (d : list (string * Z)) : option Z :=
  match d with
  | [] => None
  | (k', w) :: rest => if (k' =? k)%string then Some w else order_lookup k rest
  end.

(** [lambda x: severity_order.get(x, 2)]: the key has to be hashable, and
    only a string can be found among the keys. *)
Definition severity_key (x : value) : result Z :=
  if hashable x then
    match x with
    | VStr s =>
        match order_lookup s severity_order with
        | Some w => Ok w
        | None => Ok 2
        end
    | _ => Ok 2
    end
  else Raise TypeError.

(** The one-element list built for the legacy shape (lines 123-127). *)
Definition legacy_issues (args : value) : result value :=
  t <- get args "type" (VStr "") ;;
  s <- get args "severity" (VStr "medium") ;;
  d <- get args "description" (VStr "") ;;
  Ok (VList [VDict [("type", t); ("severity", s); ("description", d)]]).

(** Lines 119-127: [text_issues] after the backward-compatibility step. *)
Definition normalize_issues (args : value) : result value :=
  text_issues <- get args "issues" (VList []) ;;
  if truthy text_issues then Ok text_issues
  else
    legacy_type <- get args "type" VNone ;;
    if truthy legacy_type then legacy_issues args else Ok text_issues.

(** Lines 130-151: the merged entry built from a truthy [text_issues]. *)
Definition merge_issues (args text_issues : value) : result value :=
  items <- iter text_issues ;;
  types <- comprehension (fun issue => get issue "type" (VStr "")) items ;;
  descriptions <- comprehension (fun issue => get issue "description" (VStr "")) items ;;
  severities <- comprehension (fun issue => get issue "severity" (VStr "medium")) items ;;
  max_severity <- max_by severity_key severities ;;
  merged_type <- join " & " types ;;
  paragraph <- get args "paragraph" (VInt 1) ;;
  merged_description <- join " | " descriptions ;;
  original_text <- get args "originalText" (VStr "") ;;
  replace_to <- get args "replaceTo" (VStr "") ;;
  Ok (VDict [("type", VStr merged_type);
             ("severity", max_severity);
             ("paragraph", paragraph);
             ("description", VStr merged_description);
             ("text", original_text);
             ("suggestion", replace_to);
             ("originalText", original_text);
             ("replaceTo", replace_to);
             ("issues", text_issues)]).

(** The body of the [try] for a [create_suggestion] call, after
    [json.loads]: the entry to append, if any. *)
Definition create_suggestion (args : value) : result (option value) :=
  text_issues <- normalize_issues args ;;
  if truthy text_issues then
    issue <- merge_issues args text_issues ;;
    Ok (Some issue)
  else Ok None.

(** *** The diagram insertion (lines 161-171) *)

Definition diagram_insertion (args : value) : result value :=
  insert_after_text <- get args "insert_after_text" (VStr "") ;;
  mermaid_syntax <- get args "mermaid_syntax" (VStr "") ;;
  diagram_type <- get args "diagram_type" (VStr "flowchart") ;;
  title <- get args "title" (VStr "") ;;
  Ok (VDict [("insert_after_text", insert_after_text);
             ("mermaid_syntax", mermaid_syntax);
             ("diagram_type", diagram_type);
             ("title", title)]).

(** *** The dispatch loop of the review cycle (lines 109-175) *)

(** The lists [issues] and [diagram_insertions]. *)
Definition Collected : Type := (list value * list value)%type.

(** One iteration of [for func_call in function_calls].  The handler
    [except json.JSONDecodeError] continues the loop; every other
    exception leaves the loop, one raised by [json.loads] included.
    Nothing after [json.loads] in the [try] raises a [JSONDecodeError], so
    the handler is entered from that call alone.  The log line after the
    append slices the anchor text. *)
Definition on_function_call (st : Collected) (func_call : FunctionCall) : result Collected :=
  let '(issues, diagram_insertions) := st in
  if (name func_call =? "create_suggestion")%string then
    match json_loads (arguments func_call) with
    | Raise JSONDecodeError => Ok st
    | Raise e => Raise e
    | Ok args =>
        entry <- create_suggestion args ;;
        match entry with
        | Some issue => Ok (issues ++ [issue], diagram_insertions)
        | None => Ok st
        end
    end
  else if (name func_call =? "insert_diagram")%string then
    match json_loads (arguments func_call) with
    | Raise JSONDecodeError => Ok st
    | Raise e => Raise e
    | Ok args =>
        insertion <- diagram_insertion args ;;
        anchor <- get args "insert_after_text" (VStr "") ;;
        _ <- sliceable anchor ;;
        Ok (issues, diagram_insertions ++ [insertion])
    end
  else Ok st.

Fixpoint dispatch (function_calls : list FunctionCall) (st : Collected) : result Collected :=
  match function_calls with
  | [] => Ok st
  | func_call :: rest =>
      st' <- on_function_call st func_call ;;
      dispatch rest st'
  end.

(** [response = {"issues": issues, "diagram_insertions": diagram_insertions}] *)
Definition response (st : Collected) : value :=
  VDict [("issues", VList (fst st)); ("diagram_insertions", VList (snd st))].

(** Lines 180-186: the serialized response is the single value yielded; an
    exception that left the loop ends the generator before that. *)
Definition respond (r : result Collected) : Generated :=
  match r with
  | Ok st => {| yielded := [[Dumps false (response st)]]; raised := None |}
  | Raise e => {| yielded := []; raised := Some e |}
  end.

(** [review_document_with_functions], from the stream the client returns:
    plain text is only logged. *)
Definition review_document_with_functions (stream : list Delta) : Generated :=
  respond (dispatch (collect_function_calls stream) ([], [])).

(** *** The chat cycle with document context (lines 283-343) *)

Definition newline : string := String (ascii_of_nat 10) EmptyString.

(** [f"\n```mermaid\n{body}\n```\n"] *)
Definition mermaid_block (body : value) : chunk :=
  [Lit (newline ++ "```mermaid" ++ newline); Str body; Lit (newline ++ "```" ++ newline)].

(** The stream loop: text is yielded at once, fragments are aggregated. *)
Definition chat_on_delta (st : list chunk * AggState) (delta : Delta)
  : list chunk * AggState :=
  let '(out, agg) := st in
  let out' := if str_truthy (content delta)
              then out ++ [[Lit (or_empty (content delta))]] else out in
  (out', on_delta_tool_calls agg delta).

(** One iteration of the final loop: the value yielded, if any.  Only a
    [JSONDecodeError] is caught. *)
Definition chat_on_function_call (func_call : FunctionCall) : result (option chunk) :=
  if (name func_call =? "create_diagram")%string then
    match json_loads (arguments func_call) with
    | Raise JSONDecodeError => Ok None
    | Raise e => Raise e
    | Ok args =>
        mermaid_syntax <- get args "mermaid_syntax" (VStr "") ;;
        Ok (Some (mermaid_block mermaid_syntax))
    end
  else if (name func_call =? "insert_diagram")%string then
    match json_loads (arguments func_call) with
    | Raise JSONDecodeError => Ok None
    | Raise e => Raise e
    | Ok args =>
        insertion <- diagram_insertion args ;;
        Ok (Some [Lit "DIAGRAM_INSERT:"; Dumps true insertion])
    end
  else Ok None.

Fixpoint chat_dispatch (function_calls : list FunctionCall) (out : list chunk) : Generated :=
  match function_calls with
  | [] => {| yielded := out; raised := None |}
  | func_call :: rest =>
      match chat_on_function_call func_call with
      | Ok (Some text) => chat_dispatch rest (out ++ [text])
      | Ok None => chat_dispatch rest out
      | Raise e => {| yielded := out; raised := Some e |}
      end
  end.

(** [chat_with_document_context], from the stream the client returns (the
    message list built beforehand only shapes the request). *)
Definition chat_with_document_context (stream : list Delta) : Generated :=
  let '(out, agg) := fold_left chat_on_delta stream ([], ([], [])) in
  chat_dispatch (flush agg) out.

(** ** Vocabulary of the properties *)

(** The tool-call fragments of a stream, in arrival order. *)
Definition fragments (stream : list Delta) : list ToolCall :=
  flat_map (fun delta => match tool_calls delta with
                         | Some tcs => tcs
                         | None => []
                         end) stream.

(** A fragment that opens an invocation: it carries a non-empty name. *)
Definition named (tc : ToolCall) : bool := str_truthy (function_name tc).

Definition mem (k : Z) (ks : list Z) : bool := existsb (Z.eqb k) ks.

(** Every named fragment uses a slot that no earlier fragment used. *)
Fixpoint fresh_from (seen : list Z) (frs : list ToolCall) : bool :=
  match frs with
  | [] => true
  | tc :: rest =>
      (if named tc then negb (mem (index tc) seen) else true)
      && fresh_from (index tc :: seen) rest
  end.

Definition fresh_slots (frs : list ToolCall) : bool := fresh_from [] frs.

Definition concat_all (ss : list string) : string :=
  fold_right String.append EmptyString ss.

(** Every argument chunk delivered for [slot], concatenated in arrival order. *)
Definition chunks_for (slot : Z) (frs : list ToolCall) : string :=
  concat_all (map (fun tc => or_empty (function_arguments tc))
                  (filter (fun tc => index tc =? slot) frs)).

(** The invocation a slot opened by [tc] is expected to complete as. *)
Definition completed_for (frs : list ToolCall) (tc : ToolCall) : FunctionCall :=
  {| name := or_empty (function_name tc);
     arguments := chunks_for (index tc) frs |}.

(** One completed invocation for each distinct slot of the stream, carrying
    all the chunks of its slot. *)
Definition one_per_slot (frs : list ToolCall) (calls : list FunctionCall) : Prop :=
  exists slots : list Z,
    NoDup slots /\
    (forall s, In s slots <-> In s (map index frs)) /\
    Forall2 (fun s call => arguments call = chunks_for s frs) slots calls.

(** The slots in the order in which they were first met. *)
Definition opening_order (slots : list Z) : list Z :=
  fold_left (fun acc k => if mem k acc then acc else acc ++ [k]) slots [].

(** The non-empty plain-text fragments of a stream, as yielded chunks. *)
Definition texts (stream : list Delta) : list chunk :=
  flat_map (fun delta => if str_truthy (content delta)
                         then [[Lit (or_empty (content delta))]] else []) stream.

(** A delta without its plain text. *)
Definition without_text (delta : Delta) : Delta :=
  {| content := None; tool_calls := tool_calls delta |}.

(** Issues as the data model has them. *)
Inductive Severity : Type := High | Medium | Low.

Definition severity_name (s : Severity) : string :=
  match s with
  | High => "high"
  | Medium => "medium"
  | Low => "low"
  end.

(** The weights [{high:3, medium:2, low:1}]. *)
Definition weight (s : Severity) : Z :=
  match s with
  | High => 3
  | Medium => 2
  | Low => 1
  end.

Record Issue : Type := mkIssue {
  issue_type : string;
  issue_severity : Severity;
  issue_description : string
}.

(** The members [type], [severity] and [description] of an object are those
    of the issue; other members and the order of members are free. *)
Definition has_issue_fields (entries : list (string * value)) (i : Issue) : Prop :=
  lookup "type" entries = Some (VStr (issue_type i)) /\
  lookup "severity" entries = Some (VStr (severity_name (issue_severity i))) /\
  lookup "description" entries = Some (VStr (issue_description i)).

Definition represents (v : value) (i : Issue) : Prop :=
  exists entries, v = VDict entries /\ has_issue_fields entries i.

(** The issue as the object [{type, severity, description}]. *)
Definition issue_value (i : Issue) : value :=
  VDict [("type", VStr (issue_type i));
         ("severity", VStr (severity_name (issue_severity i)));
         ("description", VStr (issue_description i))].


(** The pending slots are flushed in ascending slot order. *)
Definition ascending_flush (stream : list Delta) : Prop :=
  StronglySorted Z.lt (Slots.keys (snd (run_stream stream))).

(** Every plain-text fragment is among the values a cycle yields. *)
Definition texts_forwarded (stream : list Delta) (g : Generated) : Prop :=
  forall text, In text (texts stream) -> In text (yielded g).

(** *** Sample streams *)

(** A nameless fragment for a slot that was never opened. *)
Definition orphan_fragment : list ToolCall :=
  [mkToolCall 0 None (Some "x")].

(** Slot 1 is opened before slot 0. *)
Definition descending_stream : list Delta :=
  [mkDelta None (Some [mkToolCall 1 (Some "create_suggestion") (Some "{}")]);
   mkDelta None (Some [mkToolCall 0 (Some "insert_diagram") (Some "{}")])].

(** Plain text and nothing else. *)
Definition text_only_stream : list Delta :=
  [mkDelta (Some "Reviewing the claims.") None].

(** Slot 0 is used by two invocations, one after the other. *)
Definition reuse_previous : FunctionCall :=
  {| name := "create_suggestion"; arguments := "{}" |}.

Definition reuse_fragment : ToolCall :=
  mkToolCall 0 (Some "insert_diagram") None.

(** Slot 0 is opened, slot 1 is opened and filled meanwhile, and slot 0 is
    opened again by [reuse_fragment]. *)
Definition reuse_opening : ToolCall :=
  mkToolCall 0 (Some "create_suggestion") (Some "{").

Definition reuse_between : list ToolCall :=
  [mkToolCall 1 (Some "insert_diagram") None;
   mkToolCall 0 None (Some "}");
   mkToolCall 1 None (Some "[")].

Definition interleaved_reuse_stream : list Delta :=
  [mkDelta None (Some (reuse_opening :: reuse_between));
   mkDelta None (Some [reuse_fragment; mkToolCall 1 None (Some "]")])].

Definition reuse_stream : list Delta :=
  [mkDelta None (Some [mkToolCall 0 (Some "create_suggestion") None]);
   mkDelta None (Some [mkToolCall 0 None (Some "x")]);
   mkDelta None (Some [mkToolCall 0 (Some "insert_diagram") None;
                       mkToolCall 0 None (Some "y")])].

(** Two slots whose chunks interleave, and a stray chunk for slot 5. *)
Definition interleaved_stream : list Delta :=
  [mkDelta None (Some [mkToolCall 0 (Some "create_suggestion") (Some "{");
                       mkToolCall 1 (Some "insert_diagram") None]);
   mkDelta (Some "ok") (Some [mkToolCall 5 None (Some "zz")]);
   mkDelta None (Some [mkToolCall 1 None (Some "[");
                       mkToolCall 0 None (Some "}")]);
   mkDelta None (Some [mkToolCall 1 None (Some "]")])].

(** Wire text of an issue. *)
Definition issue_text (i : Issue) : string :=
  Json.object [("type", Json.q (issue_type i));
               ("severity", Json.q (severity_name (issue_severity i)));
               ("description", Json.q (issue_description i))].

(** Wire text of the arguments of a suggestion in the current shape. *)
Definition suggestion_text (issues : list Issue) : string :=
  Json.object [("originalText", Json.q "a eraser");
               ("replaceTo", Json.q "an eraser");
               ("issues", Json.array (map issue_text issues));
               ("paragraph", "2")].

Definition suggestion_args (issues : list Issue) : list (string * value) :=
  [("originalText", VStr "a eraser");
   ("replaceTo", VStr "an eraser");
   ("issues", VList (map issue_value issues));
   ("paragraph", VInt 2)].

Definition graded_issues : list Issue :=
  [mkIssue "Ambiguity" Low "too vague";
   mkIssue "Antecedent Basis" High "no antecedent";
   mkIssue "Punctuation" Medium "missing comma"].

Definition paired_issues : list Issue :=
  [mkIssue "Structure" Medium "preamble missing";
   mkIssue "Punctuation" Medium "missing period"].


Definition legacy_args : list (string * value) :=
  [("type", VStr "Ambiguity"); ("severity", VStr "low"); ("description", VStr "d")].


Definition legacy_stream : list Delta :=
  [mkDelta None (Some [mkToolCall 0 (Some "create_suggestion")
                         (Some ("{" ++ Json.q "type" ++ ": " ++ Json.q "Ambiguity" ++ ", ")%string)]);
   mkDelta None (Some [mkToolCall 0 None
                         (Some (Json.q "severity" ++ ": " ++ Json.q "low" ++ ", "
                                ++ Json.q "description" ++ ": " ++ Json.q "d" ++ "}")%string)])].

(** A truncated payload followed, on the same slot, by a valid suggestion. *)
Definition truncated_call : FunctionCall :=
  {| name := "create_suggestion"; arguments := ("{" ++ Json.q "originalText" ++ ": ")%string |}.

Definition valid_call : FunctionCall :=
  {| name := "create_suggestion"; arguments := suggestion_text paired_issues |}.



Definition diagram_call : FunctionCall :=
  {| name := "insert_diagram";
     arguments := Json.object [("insert_after_text", Json.q "wherein the eraser is removable.");
                               ("mermaid_syntax", Json.q "graph TD; A-->B")] |}.


(** A suggestion with an empty [issues] array and no legacy [type]. *)
Definition empty_args : list (string * value) :=
  [("originalText", VStr "a eraser"); ("replaceTo", VStr "an eraser");
   ("issues", VList []); ("paragraph", VInt 2)].

Definition empty_call : FunctionCall :=
  {| name := "create_suggestion"; arguments := suggestion_text [] |}.

(** ** Vocabulary of the further properties *)

(** What the nameless fragments that follow deliver to [slot] before a
    named fragment opens the slot again. *)
Fixpoint continuation (slot : Z) (frs : list ToolCall) : string :=
  match frs with
  | [] => ""
  | tc :: rest =>
      if index tc =? slot then
        if named tc then ""
        else (or_empty (function_arguments tc) ++ continuation slot rest)%string
      else continuation slot rest
  end.

(** One invocation for each named fragment: its name, its own arguments and
    the continuation of its slot. *)
Fixpoint openings (frs : list ToolCall) : list FunctionCall :=
  match frs with
  | [] => []
  | tc :: rest =>
      if named tc then
        {| name := or_empty (function_name tc);
           arguments := (or_empty (function_arguments tc)
                         ++ continuation (index tc) rest)%string |}
        :: openings rest
      else openings rest
  end.

(** A pending invocation, with what the fragments to come will add to it. *)
Definition extended (frs : list ToolCall) (kv : Z * FunctionCall) : FunctionCall :=
  {| name := name (snd kv);
     arguments := (arguments (snd kv) ++ continuation (fst kv) frs)%string |}.

(** A call the review dispatch acts on: one of its two names, with
    arguments that parse. *)
Definition relevant (call : FunctionCall) : bool :=
  ((name call =? "create_suggestion")%string || (name call =? "insert_diagram")%string)
  && match json_loads (arguments call) with
     | Ok _ => true
     | Raise _ => false
     end.

(** A call the review dispatch steps over: it has another name, or
    [json.loads] raises a [JSONDecodeError] on its arguments. *)
Definition skipped (call : FunctionCall) : bool :=
  negb ((name call =? "create_suggestion")%string || (name call =? "insert_diagram")%string)
  || match json_loads (arguments call) with
     | Raise JSONDecodeError => true
     | _ => false
     end.

(** The calls the review dispatch does not step over: one of its two
    names, with arguments on which [json.loads] returns or raises
    something else than a [JSONDecodeError]. *)
Definition not_skipped (calls : list FunctionCall) : list FunctionCall :=
  filter (fun call => negb (skipped call)) calls.

Definition is_object (v : value) : bool :=
  match v with
  | VDict _ => true
  | _ => false
  end.

Definition is_str (v : value) : bool :=
  match v with
  | VStr _ => true
  | _ => false
  end.

(** The member [k] of an item of [issues], or the default. *)
Definition member (k : string) (default : value) (item : value) : value :=
  match item with
  | VDict entries => dict_get entries k default
  | _ => default
  end.

Definition item_severity (item : value) : value :=
  member "severity" (VStr "medium") item.

(** The text of a member that is a string. *)
Definition member_text (k : string) (item : value) : string :=
  match member k (VStr "") item with
  | VStr s => s
  | _ => ""
  end.

(** The weight of a severity: 3, 2 or 1 for high, medium and low, and 2
    for anything else. *)
Definition severity_rank (x : value) : Z :=
  match x with
  | VStr s =>
      match order_lookup s severity_order with
      | Some w => w
      | None => 2
      end
  | _ => 2
  end.

(** An item the merger accepts: an object whose [type] and [description],
    when present, are strings and whose [severity], when present, is
    hashable. *)
Definition well_shaped (item : value) : bool :=
  is_object item
  && is_str (member "type" (VStr "") item)
  && is_str (member "description" (VStr "") item)
  && hashable (item_severity item).

(** The entry the merger builds from accepted items, given the severity
    chosen. *)
Definition merged_entry (args : list (string * value)) (items : list value)
           (severity : value) : value :=
  VDict [("type", VStr (String.concat " & " (map (member_text "type") items)));
         ("severity", severity);
         ("paragraph", dict_get args "paragraph" (VInt 1));
         ("description", VStr (String.concat " | " (map (member_text "description") items)));
         ("text", dict_get args "originalText" (VStr ""));
         ("suggestion", dict_get args "replaceTo" (VStr ""));
         ("originalText", dict_get args "originalText" (VStr ""));
         ("replaceTo", dict_get args "replaceTo" (VStr ""));
         ("issues", VList items)].


(** Issues with members missing and a severity outside the enumeration. *)
Definition sparse_items : list value :=
  [VDict [("type", VStr "Structure")];
   VDict [("type", VStr "Ambiguity"); ("severity", VStr "critical")];
   VDict [("severity", VStr "low"); ("description", VStr "vague term")]].

Definition sparse_args : list (string * value) :=
  [("originalText", VStr "a eraser"); ("issues", VList sparse_items)].

(** An issue whose description is a number. *)
Definition ill_typed_args : list (string * value) :=
  [("issues", VList [VDict [("type", VStr "Structure"); ("description", VInt 7)]])].


(** A suggestion, a chat diagram, a truncated payload and a diagram
    insertion, each on its own slot; and the same stream without the two
    calls the review cycle does not act on. *)
Definition chat_diagram_call : FunctionCall :=
  {| name := "create_diagram";
     arguments := Json.object [("mermaid_syntax", Json.q "graph TD; A-->B");
                               ("diagram_type", Json.q "flowchart")] |}.

Definition opening_of (slot : Z) (call : FunctionCall) : Delta :=
  mkDelta None (Some [mkToolCall slot (Some (name call)) (Some (arguments call))]).

Definition mixed_stream : list Delta :=
  [opening_of 0 valid_call; opening_of 1 chat_diagram_call;
   opening_of 2 truncated_call; opening_of 3 diagram_call].

Definition relevant_only_stream : list Delta :=
  [opening_of 0 valid_call; opening_of 1 diagram_call].

(** A valid suggestion followed by a suggestion whose arguments are an
    array. *)
Definition array_call : FunctionCall :=
  {| name := "create_suggestion"; arguments := "[]" |}.

Definition valid_then_array_stream : list Delta :=
  [mkDelta (Some "Checking.") None; opening_of 0 valid_call; opening_of 1 array_call].

(** A diagram insertion whose anchor is [null]. *)
Definition null_anchor_args : list (string * value) :=
  [("insert_after_text", VNone); ("mermaid_syntax", VStr "graph TD; A-->B")].

Definition null_anchor_call : FunctionCall :=
  {| name := "insert_diagram";
     arguments := Json.object [("insert_after_text", "null");
                               ("mermaid_syntax", Json.q "graph TD; A-->B")] |}.

Definition null_anchor_stream : list Delta :=
  [mkDelta (Some "Here it is.") None; opening_of 0 null_anchor_call].


(** ** The plain chat cycle (lines 198-227) *)

(** [tool_call.function.name == "create_diagram"] *)
Definition names_create_diagram (tool_call : ToolCall) : bool :=
  match function_name tool_call with
  | Some n => (n =? "create_diagram")%string
  | None => false
  end.

(** Body of [for tool_call in delta.tool_calls]: the value yielded, if
    any.  No state is kept between fragments.  [json.loads] of a missing
    [arguments] is a [TypeError]; a [JSONDecodeError] moves on to the next
    fragment, any other exception ends the generator. *)
Definition chat_user_on_tool_call (tool_call : ToolCall) : result (option chunk) :=
  if names_create_diagram tool_call then
    match function_arguments tool_call with
    | None => Raise TypeError
    | Some text =>
        match json_loads text with
        | Raise JSONDecodeError => Ok None
        | Raise e => Raise e
        | Ok args =>
            mermaid_syntax <- get args "mermaid_syntax" (VStr "") ;;
            Ok (Some (mermaid_block mermaid_syntax))
        end
    end
  else Ok None.

Fixpoint chat_user_tool_calls (tcs : list ToolCall) (out : list chunk)
  : list chunk * option exn :=
  match tcs with
  | [] => (out, None)
  | tool_call :: rest =>
      match chat_user_on_tool_call tool_call with
      | Ok (Some text) => chat_user_tool_calls rest (out ++ [text])
      | Ok None => chat_user_tool_calls rest out
      | Raise e => (out, Some e)
      end
  end.

(** [async for chunk in stream]: text first, then the fragments. *)
Fixpoint chat_user_deltas (stream : list Delta) (out : list chunk) : Generated :=
  match stream with
  | [] => {| yielded := out; raised := None |}
  | delta :: rest =>
      let out1 := if str_truthy (content delta)
                  then out ++ [[Lit (or_empty (content delta))]] else out in
      match tool_calls delta with
      | Some (tc :: tcs) =>
          match chat_user_tool_calls (tc :: tcs) out1 with
          | (out2, None) => chat_user_deltas rest out2
          | (out2, Some e) => {| yielded := out2; raised := Some e |}
          end
      | _ => chat_user_deltas rest out1
      end
  end.

(** [chat_with_user], from the stream the client returns. *)
Definition chat_with_user (stream : list Delta) : Generated :=
  chat_user_deltas stream [].

(** Every fragment named [create_diagram] carries arguments that do not
    parse on their own. *)
Definition diagrams_incomplete (stream : list Delta) : Prop :=
  forall tc, In tc (fragments stream) -> names_create_diagram tc = true ->
    exists text, function_arguments tc = Some text
                 /\ json_loads text = Raise JSONDecodeError.

(** A delta reduced to its fragments named [create_diagram]. *)
Definition diagram_openings_only (delta : Delta) : Delta :=
  {| content := content delta;
     tool_calls := match tool_calls delta with
                   | Some tcs => Some (filter names_create_diagram tcs)
                   | None => None
                   end |}.

(** A call the chat dispatch steps over: it has another name than
    [create_diagram] and [insert_diagram], or [json.loads] raises a
    [JSONDecodeError] on its arguments. *)
Definition chat_skipped (call : FunctionCall) : bool :=
  negb ((name call =? "create_diagram")%string || (name call =? "insert_diagram")%string)
  || match json_loads (arguments call) with
     | Raise JSONDecodeError => true
     | _ => false
     end.

(** The calls the chat dispatch does not step over. *)
Definition chat_not_skipped (calls : list FunctionCall) : list FunctionCall :=
  filter (fun call => negb (chat_skipped call)) calls.

(** A chat diagram whose arguments arrive in two fragments. *)
Definition split_diagram_stream : list Delta :=
  [mkDelta (Some "Here is a diagram.") None;
   mkDelta None (Some [mkToolCall 0 (Some "create_diagram") (Some "")]);
   mkDelta None (Some [mkToolCall 0 None
                         (Some ("{" ++ Json.q "mermaid_syntax" ++ ": "))]);
   mkDelta None (Some [mkToolCall 0 None
                         (Some (Json.q "graph TD; A-->B" ++ "}"))])]%string.

(** A diagram insertion whose anchor is [null], alone in its stream. *)
Definition null_anchor_only_stream : list Delta :=
  [opening_of 0 null_anchor_call].

(** [n] times the digit 1. *)
Fixpoint ones (n : nat) : string :=
  match n with
  | O => EmptyString
  | S n' => String "1" (ones n')
  end.

(** A suggestion cut off inside an integer literal of 4301 digits, followed
    by a valid suggestion on the next slot. *)
Definition oversized_call : FunctionCall :=
  {| name := "create_suggestion";
     arguments := ("{" ++ Json.q "paragraph" ++ ": " ++ ones 4301)%string |}.

Definition oversized_then_valid_stream : list Delta :=
  [opening_of 0 oversized_call; opening_of 1 valid_call].

Definition valid_only_stream : list Delta :=
  [opening_of 1 valid_call].

(** A suggestion, then a chat diagram whose arguments are a number. *)
Definition number_call : FunctionCall :=
  {| name := "create_diagram"; arguments := "42" |}.

Definition suggestion_then_number_stream : list Delta :=
  [mkDelta (Some "One moment.") None; opening_of 0 valid_call;
   opening_of 1 chat_diagram_call; opening_of 2 number_call;
   opening_of 3 diagram_call].


(** ** Configuration (lines 20-30) *)

(** [OPENAI_MODEL = os.getenv("OPENAI_MODEL") or "gpt-4o"] *)
Definition OPENAI_MODEL (env_model : option string) : option string :=
  if str_truthy env_model then env_model else Some "gpt-4o".

(** [OPENAI_API_KEY = os.getenv("OPENAI_API_KEY")] *)
Definition OPENAI_API_KEY (env_key : option string) : option string := env_key.

Record AIEnhanced : Type := mkAIEnhanced {
  ai_api_key : string;
  ai_model : string
}.

(** [get_ai_enhanced(model, api_key)] *)
Definition get_ai_enhanced (model api_key : option string) : result AIEnhanced :=
  if negb (str_truthy api_key) || negb (str_truthy model)
  then Raise ValueError
  else Ok {| ai_api_key := or_empty api_key; ai_model := or_empty model |}.

(** The message of the [ValueError] of [get_ai_enhanced]. *)
Definition configuration_message : string :=
  "Both API key and model need to be set".

(** ** The chat endpoint (enhanced_endpoints.py, lines 148-192) *)

(** What the endpoints take from outside these sources.  [json_dumps] is
    [json.dumps] (first argument: [ensure_ascii]); [str_of] is [str] on the
    values that are not strings; [exn_message] is [str] on an exception
    raised by the interpreter; [html_to_plain_text], [validate_text_for_ai]
    and [format_patent_chat_prompt] live in modules that are not part of
    these sources; [strip] is [str.strip]; [utcnow n] is the text of the
    [n]-th reading of [datetime.utcnow().isoformat()] on a connection. *)
Record Runtime : Type := mkRuntime {
  json_dumps : bool -> value -> string;
  str_of : value -> string;
  exn_message : exn -> string;
  html_to_plain_text : string -> result string;
  validate_text_for_ai : string -> result (bool * string);
  format_patent_chat_prompt : string -> string -> string;
  strip : string -> string;
  utcnow : nat -> string
}.

Section Endpoints.

Variable rt : Runtime.

(** The string a yielded chunk stands for. *)
Definition render_piece (p : piece) : string :=
  match p with
  | Lit s => s
  | Str (VStr s) => s
  | Str v => str_of rt v
  | Dumps ensure_ascii v => json_dumps rt ensure_ascii v
  end.

Definition render (c : chunk) : string := concat_all (map render_piece c).

Definition sentinel : string := "DIAGRAM_INSERT:".

(** [s.startswith(prefix)] *)
Definition startswith (prefix s : string) : bool := String.prefix prefix s.

(** [s[n:]] *)
Fixpoint drop (n : nat) (s : string) : string :=
  match n, s with
  | O, _ => s
  | S n', String _ rest => drop n' rest
  | S _, EmptyString => EmptyString
  end.

(** *** The request of the chat cycle (ai_enhanced.py, lines 240-268) *)

(** A chat message, a [Dict[str, str]]. *)
Definition Message : Type := list (string * string).

Fixpoint message_get (m : Message) (k default : string) : string :=
  match m with
  | [] => default
  | (k', v) :: rest => if (k' =? k)%string then v else message_get rest k default
  end.

(** [enhanced_messages], the message list sent to the model. *)
Definition enhanced_messages (messages : list Message) (document_content : string)
  : result (list Message) :=
  plain_text_content <-
    (if negb (strip rt document_content =? "")%string
     then html_to_plain_text rt document_content else Ok ""%string) ;;
  match messages with
  | [] => Ok messages
  | _ :: _ =>
      let last_user_message := message_get (last messages []) "content" "" in
      Ok ([("role", "system");
           ("content", format_patent_chat_prompt rt plain_text_content last_user_message)]
          :: removelast messages
          ++ [[("role", "user"); ("content", last_user_message)]])%string
  end.

(** *** The endpoint *)

(** [ChatMessage] and [ChatRequest]. *)
Record ChatMessage : Type := mkChatMessage {
  role : string;
  message_content : string
}.

Record ChatRequest : Type := mkChatRequest {
  request_messages : list ChatMessage;
  current_document_content : string
}.

(** [[{"role": msg.role, "content": msg.content} for msg in request.messages]] *)
Definition message_dicts (request : ChatRequest) : list Message :=
  map (fun msg => [("role", role msg); ("content", message_content msg)]%string)
      (request_messages request).

(** [chat_with_document_context(messages, document_content)] as the
    endpoint iterates it: the request is built first, and an exception
    raised there ends the generator before it yields; then come the values
    of the cycle on the stream the client returns. *)
Definition chat_context_generator (messages : list Message) (document_content : string)
           (stream : list Delta) : Generated :=
  match enhanced_messages messages document_content with
  | Raise e => {| yielded := []; raised := Some e |}
  | Ok _ => chat_with_document_context stream
  end.

(** Body of [async for chunk in ...]: the lists [response_chunks] and
    [diagram_insertions].  The inner handler catches a [JSONDecodeError]
    only; another exception of [json.loads] leaves the loop. *)
Definition chat_on_chunk (st : list string * list value) (chunk : string)
  : result (list string * list value) :=
  let '(response_chunks, diagram_insertions) := st in
  if negb (chunk =? "")%string then
    if startswith sentinel chunk then
      match json_loads (drop 15 chunk) with
      | Ok diagram_data => Ok (response_chunks, diagram_insertions ++ [diagram_data])
      | Raise JSONDecodeError => Ok st
      | Raise e => Raise e
      end
    else Ok (response_chunks ++ [chunk], diagram_insertions)
  else Ok st.

(** The loop over the values yielded so far. *)
Fixpoint chat_on_chunks (chunks : list string) (st : list string * list value)
  : result (list string * list value) :=
  match chunks with
  | [] => Ok st
  | chunk :: rest =>
      st' <- chat_on_chunk st chunk ;;
      chat_on_chunks rest st'
  end.

(** What the endpoint answers: the returned object, or the
    [HTTPException] it raises. *)
Inductive Reply : Type :=
| Returned (result : value)
| HTTPException (status_code : Z) (detail : string).

(** Lines 180-188: the result built from the two lists. *)
Definition chat_result (st : list string * list value) : value :=
  VDict (("response", VStr (concat_all (fst st)))
         :: match snd st with
            | [] => []
            | _ :: _ => [("diagram_insertions", VList (snd st))]
            end).

(** The loop over what the generator yields, and the outer handler: the
    body runs on every value as it is yielded, so that an exception of the
    body comes before one that ends the generator later; either is turned
    into the [HTTPException]. *)
Definition chat_reply (g : Generated) : Reply :=
  match chat_on_chunks (map render (yielded g)) ([], []) with
  | Raise e => HTTPException 500 (exn_message rt e)
  | Ok st =>
      match raised g with
      | Some e => HTTPException 500 (exn_message rt e)
      | None => Returned (chat_result st)
      end
  end.

(** [chat_with_ai], from the environment variables, the request and the
    stream the client returns for it. *)
Definition chat_with_ai (env_key env_model : option string) (request : ChatRequest)
           (stream : list Delta) : Reply :=
  match get_ai_enhanced (OPENAI_MODEL env_model) (OPENAI_API_KEY env_key) with
  | Raise _ => HTTPException 500 configuration_message
  | Ok _ =>
      chat_reply (chat_context_generator (message_dicts request)
                                         (current_document_content request) stream)
  end.

(** The yielded strings that reach the response: those that do not begin
    with the marker. *)
Definition kept (chunks : list string) : list string :=
  filter (fun s => negb (startswith sentinel s)) chunks.

(** The insertions read from the yielded strings that begin with the
    marker, in order; a tail that [json.loads] refuses gives none. *)
Definition decoded (chunks : list string) : list value :=
  flat_map (fun s => if startswith sentinel s
                     then match json_loads (drop 15 s) with
                          | Ok v => [v]
                          | Raise _ => []
                          end
                     else []) chunks.

(** A yielded string that begins with the marker and on whose tail
    [json.loads] raises something else than a [JSONDecodeError]. *)
Definition breaks (s : string) : bool :=
  startswith sentinel s
  && match json_loads (drop 15 s) with
     | Ok _ => false
     | Raise JSONDecodeError => false
     | Raise _ => true
     end.

(** The value of an insertion command, if the chunk is one. *)
Definition command_payload (c : chunk) : option value :=
  match c with
  | [Lit p; Dumps true v] => if (p =? sentinel)%string then Some v else None
  | _ => None
  end.

Definition payloads (cs : list chunk) : list value :=
  flat_map (fun c => match command_payload c with
                     | Some v => [v]
                     | None => []
                     end) cs.

Definition displayed (cs : list chunk) : list chunk :=
  filter (fun c => match command_payload c with
                   | Some _ => false
                   | None => true
                   end) cs.

(** No plain-text fragment begins with the sentinel. *)
Definition no_sentinel_text (stream : list Delta) : Prop :=
  forall s, In [Lit s] (texts stream) -> startswith sentinel s = false.

(** Plain text that begins with the sentinel: once followed by text that
    is not JSON, once by text that is; then a diagram insertion. *)
Definition sentinel_text_stream : list Delta :=
  [mkDelta (Some "Use the marker ") None;
   mkDelta (Some "DIAGRAM_INSERT: before a diagram.") None;
   mkDelta (Some "DIAGRAM_INSERT:[1]") None;
   mkDelta (Some " Done.") None;
   opening_of 0 diagram_call].

(** Text, a chat diagram and a diagram insertion. *)
Definition chat_sample_stream : list Delta :=
  [mkDelta (Some "Here you are.") None;
   opening_of 0 chat_diagram_call; opening_of 1 diagram_call].


(** ** The review channel (enhanced_endpoints.py, lines 27-146) *)

(** [len(v)] succeeds on strings, lists and dicts only. *)
Definition sized (v : value) : result unit :=
  match v with
  | VStr _ | VList _ | VDict _ => Ok tt
  | _ => Raise TypeError
  end.

(** A message of the channel, as sent: [json.dumps] of a dict with its
    [type], its own fields and the time stamp read when it is built. *)
Definition frame (tick : nat) (type : string) (fields : list (string * value)) : chunk :=
  [Dumps true (VDict (("type", VStr type) :: fields ++ [("timestamp", VStr (utcnow rt tick))]))].

(** The handler of the inner [except Exception]. *)
Definition analysis_error (tick : nat) (e : exn) : chunk :=
  frame tick "ai_error" [("message", VStr ("AI分析失败: " ++ exn_message rt e))].

(** One turn of [while True], from the received text and the stream the
    client returns for it: the messages sent.  [tick] counts the readings
    of the clock so far.  The log line after [ai_suggestions] is inside
    the [try], so that its failure sends an [ai_error] as well. *)
Definition review_cycle (tick : nat) (html_content : string) (stream : list Delta)
  : list chunk :=
  frame tick "processing_start" [("message", VStr "正在分析文档...")]
  :: match html_to_plain_text rt html_content with
     | Raise e => [analysis_error (S tick) e]
     | Ok plain_text =>
         match validate_text_for_ai rt plain_text with
         | Raise e => [analysis_error (S tick) e]
         | Ok (is_valid, error_message) =>
             if negb is_valid then
               [frame (S tick) "validation_error" [("message", VStr error_message)]]
             else
               let g := review_document_with_functions stream in
               match raised g with
               | Some e => [analysis_error (S tick) e]
               | None =>
                   let full_response :=
                     concat_all (filter (fun s => negb (s =? "")%string)
                                        (map render (yielded g))) in
                   match json_loads full_response with
                   | Raise JSONDecodeError =>
                       [frame (S tick) "parsing_error" [("message", VStr "AI响应解析失败")]]
                   | Raise e => [analysis_error (S tick) e]
                   | Ok parsed_result =>
                       frame (S tick) "ai_suggestions" [("data", parsed_result)]
                       :: match (issues <- get parsed_result "issues" (VList []) ;;
                                 sized issues) with
                          | Ok _ => []
                          | Raise e => [analysis_error (S (S tick)) e]
                          end
                   end
               end
         end
     end.

(** The turns for the texts received before the client disconnects. *)
Fixpoint serve (tick : nat) (cycles : list (string * list Delta)) : list chunk :=
  match cycles with
  | [] => []
  | (html_content, stream) :: rest =>
      let frames := review_cycle tick html_content stream in
      frames ++ serve (tick + List.length frames) rest
  end.

Inductive Event : Type :=
| Sent (message : chunk)
| Closed.

(** [websocket_enhanced_endpoint], for a client that stays connected while
    its texts are handled and then disconnects: what the server does on
    the socket after accepting it. *)
Definition websocket_enhanced_endpoint (env_key env_model : option string)
           (cycles : list (string * list Delta)) : list Event :=
  match get_ai_enhanced (OPENAI_MODEL env_model) (OPENAI_API_KEY env_key) with
  | Raise _ =>
      [Sent (frame 0 "ai_error"
               [("message", VStr ("AI服务初始化失败: " ++ configuration_message))]);
       Closed]
  | Ok _ =>
      Sent (frame 0 "connection_success" [("message", VStr "Enhanced AI服务已就绪")])
      :: map Sent (serve 1 cycles)
  end.

(** The [type] of a message of the channel. *)
Definition frame_type (c : chunk) : string :=
  match c with
  | [Dumps _ (VDict (("type", VStr t) :: _))] => t
  | _ => ""
  end.

Definition event_type (e : Event) : string :=
  match e with
  | Sent c => frame_type c
  | Closed => "close"
  end.

(** How a turn ends when [json.dumps] and [json.loads] agree on the
    response. *)
Definition outcome (cycle : string * list Delta) : string :=
  match html_to_plain_text rt (fst cycle) with
  | Raise _ => "ai_error"
  | Ok plain_text =>
      match validate_text_for_ai rt plain_text with
      | Raise _ => "ai_error"
      | Ok (false, _) => "validation_error"
      | Ok (true, _) =>
          match raised (review_document_with_functions (snd cycle)) with
          | Some _ => "ai_error"
          | None => "ai_suggestions"
          end
      end
  end.

(** [json.loads] gives back the response that [json.dumps] serialized. *)
Definition response_round_trip (cycle : string * list Delta) : Prop :=
  forall st, dispatch (collect_function_calls (snd cycle)) ([], []) = Ok st ->
             json_loads (json_dumps rt false (response st)) = Ok (response st).

End Endpoints.


(** *** A runtime for concrete runs

    The printer of the JSON fragment, a conversion that keeps the text, a
    validation that rejects the empty text, and a clock that numbers its
    readings. *)

Definition sample_exn_message (e : exn) : string :=
  match e with
  | AttributeError => "AttributeError"
  | TypeError => "TypeError"
  | ValueError => "ValueError"
  | JSONDecodeError => "JSONDecodeError"
  | RecursionError => "RecursionError"
  end.

Definition sample_runtime : Runtime :=
  {| json_dumps := fun _ => JsonOut.dumps;
     str_of := JsonOut.dumps;
     exn_message := sample_exn_message;
     html_to_plain_text := fun html => Ok html;
     validate_text_for_ai :=
       fun text => if (text =? "")%string
                   then Ok (false, "Document is empty")
                   else Ok (true, "");
     format_patent_chat_prompt := fun document question => (document ++ question)%string;
     strip := fun s => s;
     utcnow := fun n => NilZero.string_of_uint (Nat.to_uint n) |}.

(** [chat_sample_stream] with a suggestion and a truncated payload among
    its invocations. *)
Definition chat_sample_with_suggestion_stream : list Delta :=
  [mkDelta (Some "Here you are.") None;
   opening_of 0 valid_call; opening_of 1 chat_diagram_call;
   opening_of 2 truncated_call; opening_of 3 diagram_call].

(** A request with one message and a document. *)
Definition sample_request : ChatRequest :=
  {| request_messages := [mkChatMessage "user" "Draw claim 1."];
     current_document_content := "<p>1. A pencil.</p>" |}.

(** A history that ends with a message of the assistant. *)
Definition sample_messages : list Message :=
  [[("role", "user"); ("content", "What does claim 1 cover?")];
   [("role", "assistant"); ("content", "A pencil with an eraser.")];
   [("role", "assistant"); ("content", "Shall I draw it?")]]%string.

(** An empty text, a text reviewed with one suggestion, and a text whose
    review raises. *)
Definition sample_cycles : list (string * list Delta) :=
  [(""%string, []);
   ("<p>1. A device.</p>"%string, legacy_stream);
   ("<p>2. The device.</p>"%string, valid_then_array_stream)].


(** The invocations named [n]. *)
Definition named_calls (n : string) (calls : list FunctionCall) : list FunctionCall :=
  filter (fun call => (name call =? n)%string) calls.

(** A reuse-free stream delivered again with every invocation whole: one
    fragment per named fragment, in the same order, carrying all the chunks
    of its slot. *)
Definition delivered_whole (frs : list ToolCall) : list ToolCall :=
  map (fun tc => mkToolCall (index tc) (function_name tc)
                            (Some (chunks_for (index tc) frs)))
      (filter named frs).

Definition as_stream (frs : list ToolCall) : list Delta :=
  [mkDelta None (Some frs)].

(** ** Properties of the containers *)

Lemma mem_true_iff (k : Z) (ks : list Z) : mem k ks = true <-> In k ks.
Proof.
  unfold mem. rewrite existsb_exists. split.
  - intros [x [Hin Heq]]. apply Z.eqb_eq in Heq. now subst.
  - intros Hin. exists k. split; [assumption | apply Z.eqb_refl].
Qed.

Lemma mem_false_iff (k : Z) (ks : list Z) : mem k ks = false <-> ~ In k ks.
Proof.
  rewrite <- mem_true_iff. destruct (mem k ks); split; congruence.
Qed.

Lemma append_assoc (a b c : string) : ((a ++ b) ++ c)%string = (a ++ (b ++ c))%string.
Proof. induction a; simpl; congruence. Qed.

Lemma concat_all_app (xs ys : list string) :
  concat_all (xs ++ ys) = (concat_all xs ++ concat_all ys)%string.
Proof.
  induction xs as [| x xs IH]; simpl.
  - reflexivity.
  - rewrite IH. now rewrite append_assoc.
Qed.

Lemma append_empty_r (s : string) : (s ++ "")%string = s.
Proof. induction s; simpl; congruence. Qed.

(** *** The slot dictionary *)

Lemma find_none_iff (k : Z) (d : Slots.t) :
  Slots.find k d = None <-> ~ In k (Slots.keys d).
Proof.
  induction d as [| [k' v'] d IH]; simpl.
  - tauto.
  - destruct (Z.eqb_spec k' k) as [-> | Hne].
    + split; [discriminate | intros H; exfalso; apply H; now left].
    + rewrite IH. split; [intros H [Heq | Hin]; [congruence | tauto] | tauto].
Qed.

Lemma find_some_in (k : Z) (d : Slots.t) (v : FunctionCall) :
  Slots.find k d = Some v -> In k (Slots.keys d).
Proof.
  intros Hf. destruct (in_dec Z.eq_dec k (Slots.keys d)) as [Hin | Hnin].
  - exact Hin.
  - apply find_none_iff in Hnin. congruence.
Qed.

(** Assigning to a new key appends it. *)
Lemma set_absent (k : Z) (v : FunctionCall) (d : Slots.t) :
  Slots.find k d = None -> Slots.set k v d = d ++ [(k, v)].
Proof.
  induction d as [| [k' v'] d IH]; simpl; intros Hf.
  - reflexivity.
  - destruct (k' =? k); [discriminate | now rewrite IH].
Qed.

(** Assigning to a key leaves the order of the keys as it is. *)
Lemma keys_set (k : Z) (v : FunctionCall) (d : Slots.t) :
  Slots.keys (Slots.set k v d) =
  if mem k (Slots.keys d) then Slots.keys d else Slots.keys d ++ [k].
Proof.
  unfold Slots.keys, mem.
  induction d as [| [k' v'] d IH]; simpl.
  - reflexivity.
  - rewrite (Z.eqb_sym k k'). destruct (Z.eqb_spec k' k) as [-> | Hne]; simpl.
    + reflexivity.
    + rewrite IH. now destruct (existsb (Z.eqb k) (map fst d)).
Qed.

(** With distinct keys, updating the value found under a key is a map. *)
Lemma set_update_map (g : FunctionCall -> FunctionCall) (k : Z) (d : Slots.t)
      (v : FunctionCall) :
  NoDup (Slots.keys d) ->
  Slots.find k d = Some v ->
  Slots.set k (g v) d =
  map (fun kv => if fst kv =? k then (fst kv, g (snd kv)) else kv) d.
Proof.
  induction d as [| [k' v'] d IH]; simpl; intros Hnd Hf.
  - discriminate.
  - inversion Hnd as [| ? ? Hnin Hnd']; subst.
    destruct (Z.eqb_spec k' k) as [-> | Hne].
    + injection Hf as ->. f_equal.
      symmetry. rewrite <- (map_id d) at 2. apply map_ext_in.
      intros [k2 v2] Hin. simpl.
      destruct (Z.eqb_spec k2 k) as [-> | _]; [| reflexivity].
      exfalso. apply Hnin. change k with (fst (k, v2)). now apply in_map.
    + f_equal. now apply IH.
Qed.

(** *** The loop over the stream *)

Lemma fold_deltas_fragments (stream : list Delta) (st : AggState) :
  fold_left on_delta_tool_calls stream st =
  fold_left on_tool_call (fragments stream) st.
Proof.
  revert st. induction stream as [| delta stream IH]; intros st; simpl.
  - reflexivity.
  - rewrite fold_left_app, IH. f_equal.
    unfold on_delta_tool_calls. destruct (tool_calls delta) as [[| tc tcs] |]; reflexivity.
Qed.

Lemma run_stream_fragments (stream : list Delta) :
  run_stream stream = fold_left on_tool_call (fragments stream) ([], []).
Proof. apply fold_deltas_fragments. Qed.

Lemma on_tool_call_named (function_calls : list FunctionCall) (current : Slots.t)
      (tc : ToolCall) :
  named tc = true ->
  on_tool_call (function_calls, current) tc =
  (match Slots.find (index tc) current with
   | Some previous => function_calls ++ [previous]
   | None => function_calls
   end,
   Slots.set (index tc)
     {| name := or_empty (function_name tc);
        arguments := or_empty (function_arguments tc) |} current).
Proof. unfold named, on_tool_call. now intros ->. Qed.

Lemma on_tool_call_unnamed (function_calls : list FunctionCall) (current : Slots.t)
      (tc : ToolCall) :
  named tc = false ->
  on_tool_call (function_calls, current) tc =
  match Slots.find (index tc) current with
  | Some pending =>
      (function_calls,
       Slots.set (index tc)
         {| name := name pending;
            arguments := (arguments pending ++ or_empty (function_arguments tc))%string |}
         current)
  | None => (function_calls, current)
  end.
Proof. unfold named, on_tool_call. now intros ->. Qed.

(** ** Slot reuse *)

Lemma find_set_same (k : Z) (v : FunctionCall) (d : Slots.t) :
  Slots.find k (Slots.set k v d) = Some v.
Proof.
  induction d as [| [k' v'] d IH]; simpl.
  - now rewrite Z.eqb_refl.
  - destruct (Z.eqb_spec k' k) as [-> | Hne]; simpl.
    + now rewrite Z.eqb_refl.
    + destruct (Z.eqb_spec k' k); [contradiction | exact IH].
Qed.

(** Assigning to a key leaves what the other keys hold. *)
Lemma find_set_other (k k' : Z) (v : FunctionCall) (d : Slots.t) :
  k' <> k -> Slots.find k' (Slots.set k v d) = Slots.find k' d.
Proof.
  intros Hne. induction d as [| [k0 v0] d IH]; simpl.
  - destruct (Z.eqb_spec k k'); [congruence | reflexivity].
  - destruct (Z.eqb_spec k0 k) as [-> | Hk]; simpl.
    + destruct (Z.eqb_spec k k'); [congruence | reflexivity].
    + now rewrite IH.
Qed.

(** A fragment for another slot leaves what a slot holds. *)
Lemma find_on_tool_call_other (slot : Z) (st : AggState) (tc : ToolCall) :
  index tc <> slot ->
  Slots.find slot (snd (on_tool_call st tc)) = Slots.find slot (snd st).
Proof.
  intros Hne. destruct st as [function_calls current]. cbn [snd].
  destruct (named tc) eqn:Hn.
  - rewrite on_tool_call_named by assumption. cbn [snd].
    apply find_set_other. congruence.
  - rewrite on_tool_call_unnamed by assumption.
    destruct (Slots.find (index tc) current) as [pending |]; cbn [snd]; [| reflexivity].
    apply find_set_other. congruence.
Qed.

(** While no named fragment arrives for a slot, the invocation pending on
    it takes every chunk delivered for the slot, whatever happens on the
    other slots. *)
Lemma pending_takes_chunks (slot : Z) (between : list ToolCall) (st : AggState)
      (pending : FunctionCall) :
  Slots.find slot (snd st) = Some pending ->
  (forall tc, In tc between -> index tc = slot -> named tc = false) ->
  Slots.find slot (snd (fold_left on_tool_call between st)) =
    Some {| name := name pending;
            arguments := (arguments pending ++ chunks_for slot between)%string |}.
Proof.
  revert st pending.
  induction between as [| tc between IH]; intros st pending Hfind Hquiet.
  - cbn [fold_left]. unfold chunks_for. cbn. rewrite append_empty_r, Hfind.
    now destruct pending.
  - cbn [fold_left].
    assert (Hrest : forall tc', In tc' between -> index tc' = slot -> named tc' = false)
      by (intros tc' Hin; apply Hquiet; now right).
    destruct (Z.eqb_spec (index tc) slot) as [Heq | Hne].
    + specialize (Hquiet tc (or_introl eq_refl) Heq).
      destruct st as [function_calls current]. cbn [snd] in Hfind.
      rewrite on_tool_call_unnamed by assumption. rewrite Heq, Hfind.
      rewrite (IH _ {| name := name pending;
                       arguments := (arguments pending
                                     ++ or_empty (function_arguments tc))%string |});
        [| cbn [snd]; apply find_set_same | exact Hrest].
      cbn [name arguments]. f_equal. f_equal.
      unfold chunks_for. cbn [filter]. apply Z.eqb_eq in Heq. rewrite Heq.
      cbn [map concat_all fold_right]. now rewrite append_assoc.
    + rewrite (IH _ pending);
        [| rewrite find_on_tool_call_other by assumption; exact Hfind | exact Hrest].
      f_equal. f_equal. unfold chunks_for. cbn [filter].
      apply Z.eqb_neq in Hne. now rewrite Hne.
Qed.

(** The completed invocations are only ever appended to. *)
Lemma completed_only_grow (frs : list ToolCall) (st : AggState) :
  exists more, fst (fold_left on_tool_call frs st) = fst st ++ more.
Proof.
  revert st. induction frs as [| tc frs IH]; intros st; cbn [fold_left].
  - exists []. now rewrite app_nil_r.
  - destruct (IH (on_tool_call st tc)) as [more Hmore]. rewrite Hmore.
    destruct st as [function_calls current].
    destruct (named tc) eqn:Hn.
    + rewrite on_tool_call_named by assumption. cbn [fst].
      destruct (Slots.find (index tc) current) as [previous |].
      * exists (previous :: more). now rewrite <- app_assoc.
      * now exists more.
    + rewrite on_tool_call_unnamed by assumption.
      destruct (Slots.find (index tc) current) as [pending |]; cbn [fst]; now exists more.
Qed.

(** C1.  A fragment with a non-empty name that arrives for a slot holding
    a pending invocation appends that invocation to [function_calls]
    before the slot is given to the new one.  Over streams: when such a
    fragment arrives for a slot that an earlier named fragment opened
    (with any fragments in between, for this slot nameless ones only, for
    other slots any), the slot holds the earlier invocation with every
    chunk delivered for it since; the new fragment appends exactly that
    invocation, gives the slot to the new invocation and leaves the other
    slots as they are; and the finalized invocation is in the output of
    every stream that goes on from there, right after what had been
    completed before.
    In particular every stream whose fragments are (slot 0, name A),
    (slot 0, chunk x), (slot 0, name B), (slot 0, chunk y) completes as A
    with arguments x, then B with arguments y. *)
Theorem slot_reuse_finalizes_previous
        (before between : list ToolCall) (opening reopening : ToolCall)
        (A B : string) :
  named opening = true ->
  named reopening = true ->
  index reopening = index opening ->
  (forall tc, In tc between -> index tc = index opening -> named tc = false) ->
  A <> "" -> B <> "" ->
  let st := fold_left on_tool_call (before ++ opening :: between) ([], []) in
  let previous :=
    {| name := or_empty (function_name opening);
       arguments := (or_empty (function_arguments opening)
                     ++ chunks_for (index opening) between)%string |} in
  let started :=
    {| name := or_empty (function_name reopening);
       arguments := or_empty (function_arguments reopening) |} in
  (forall function_calls current pending,
      Slots.find (index reopening) current = Some pending ->
      on_tool_call (function_calls, current) reopening =
        (function_calls ++ [pending], Slots.set (index reopening) started current))
  /\ Slots.find (index opening) (snd st) = Some previous
  /\ on_tool_call st reopening =
       (fst st ++ [previous], Slots.set (index opening) started (snd st))
  /\ Slots.find (index opening) (snd (on_tool_call st reopening)) = Some started
  /\ (forall k, k <> index opening ->
        Slots.find k (snd (on_tool_call st reopening)) = Slots.find k (snd st))
  /\ (forall stream after,
        fragments stream = before ++ opening :: between ++ reopening :: after ->
        exists later, collect_function_calls stream = fst st ++ previous :: later)
  /\ (forall stream,
        fragments stream =
          [mkToolCall 0 (Some A) None; mkToolCall 0 None (Some "x");
           mkToolCall 0 (Some B) None; mkToolCall 0 None (Some "y")] ->
        collect_function_calls stream =
          [{| name := A; arguments := "x" |}; {| name := B; arguments := "y" |}]).
Proof.
  intros Hopening Hreopening Hslot Hquiet HA HB st previous started.
  assert (Hfind : Slots.find (index opening) (snd st) = Some previous).
  { unfold st. rewrite fold_left_app. cbn [fold_left].
    set (st0 := fold_left on_tool_call before ([], [])).
    rewrite (pending_takes_chunks (index opening) between (on_tool_call st0 opening)
               {| name := or_empty (function_name opening);
                  arguments := or_empty (function_arguments opening) |}).
    - reflexivity.
    - destruct st0 as [function_calls current].
      rewrite on_tool_call_named by assumption. cbn [snd]. apply find_set_same.
    - exact Hquiet. }
  assert (Hstep : on_tool_call st reopening =
                  (fst st ++ [previous], Slots.set (index opening) started (snd st))).
  { destruct st as [function_calls current] eqn:Hst. cbn [fst snd] in *.
    rewrite on_tool_call_named by assumption. now rewrite Hslot, Hfind. }
  split.
  { intros function_calls current pending Hpending.
    rewrite on_tool_call_named by assumption. now rewrite Hpending. }
  split; [exact Hfind |]. split; [exact Hstep |]. split; [| split; [| split]].
  - rewrite Hstep. cbn [snd]. apply find_set_same.
  - intros k Hk. rewrite Hstep. cbn [snd]. now apply find_set_other.
  - intros stream after Hfr. unfold collect_function_calls, flush.
    rewrite run_stream_fragments, Hfr.
    replace (before ++ opening :: between ++ reopening :: after)
      with ((before ++ opening :: between) ++ reopening :: after)
      by (now rewrite <- app_assoc).
    rewrite fold_left_app. cbn [fold_left]. fold st. rewrite Hstep.
    destruct (completed_only_grow after
                (fst st ++ [previous], Slots.set (index opening) started (snd st)))
      as [more Hmore].
    rewrite Hmore. cbn [fst]. rewrite <- !app_assoc. cbn [app]. eauto.
  - intros stream Hfr. unfold collect_function_calls.
    rewrite run_stream_fragments, Hfr.
    apply String.eqb_neq in HA, HB.
    cbn. rewrite HA. cbn. rewrite HB. reflexivity.
Qed.

(** ** The order of the flush *)

Lemma keys_on_tool_call (st : AggState) (tc : ToolCall) :
  Slots.keys (snd (on_tool_call st tc)) =
  if named tc
  then (if mem (index tc) (Slots.keys (snd st))
        then Slots.keys (snd st) else Slots.keys (snd st) ++ [index tc])
  else Slots.keys (snd st).
Proof.
  destruct st as [function_calls current].
  change (snd (function_calls, current)) with current.
  destruct (named tc) eqn:Hn.
  - rewrite on_tool_call_named by assumption. cbn [snd]. apply keys_set.
  - rewrite on_tool_call_unnamed by assumption.
    destruct (Slots.find (index tc) current) as [pending |] eqn:Hf; cbn [snd].
    + rewrite keys_set. apply find_some_in, mem_true_iff in Hf. now rewrite Hf.
    + reflexivity.
Qed.

Lemma keys_fold_tool_calls (frs : list ToolCall) (st : AggState) :
  Slots.keys (snd (fold_left on_tool_call frs st)) =
  fold_left (fun acc k => if mem k acc then acc else acc ++ [k])
            (map index (filter named frs)) (Slots.keys (snd st)).
Proof.
  revert st. induction frs as [| tc frs IH]; intros st; simpl.
  - reflexivity.
  - rewrite IH, keys_on_tool_call. now destruct (named tc).
Qed.

(** The chat cycle runs the same aggregation beside its text output. *)
Lemma chat_fold (stream : list Delta) (out : list chunk) (agg : AggState) :
  fold_left chat_on_delta stream (out, agg) =
  (out ++ texts stream, fold_left on_delta_tool_calls stream agg).
Proof.
  revert out agg. induction stream as [| delta stream IH]; intros out agg; simpl.
  - now rewrite app_nil_r.
  - rewrite IH. destruct (str_truthy (content delta)); simpl.
    + now rewrite <- app_assoc.
    + reflexivity.
Qed.

(** C3, as the code has it.  In both cycles the slots still pending at the
    end of the stream are appended to [function_calls] in the order in which
    they were first opened, whatever their numbers. *)
Theorem pending_flushed_in_opening_order (stream : list Delta) :
  collect_function_calls stream =
    fst (run_stream stream) ++ Slots.values (snd (run_stream stream))
  /\ Slots.keys (snd (run_stream stream)) =
       opening_order (map index (filter named (fragments stream)))
  /\ snd (fold_left chat_on_delta stream ([], ([], []))) = run_stream stream.
Proof.
  split; [reflexivity | split].
  - rewrite run_stream_fragments. apply (keys_fold_tool_calls _ ([], [])).
  - now rewrite chat_fold.
Qed.

(** ** One invocation per opened slot *)

Lemma fresh_from_snoc (seen : list Z) (frs : list ToolCall) (tc : ToolCall) :
  fresh_from seen (frs ++ [tc]) =
  fresh_from seen frs
  && (if named tc then negb (mem (index tc) (rev (map index frs) ++ seen)) else true).
Proof.
  revert seen. induction frs as [| a frs IH]; intros seen; simpl.
  - now rewrite andb_true_r.
  - rewrite IH, <- app_assoc, andb_assoc. reflexivity.
Qed.

Lemma fresh_slots_snoc (frs : list ToolCall) (tc : ToolCall) :
  fresh_slots (frs ++ [tc]) = true ->
  fresh_slots frs = true /\ (named tc = true -> ~ In (index tc) (map index frs)).
Proof.
  unfold fresh_slots. rewrite fresh_from_snoc, app_nil_r.
  intros H. apply andb_prop in H as [H1 H2]. split; [assumption |].
  intros Hn. rewrite Hn in H2. apply negb_true_iff, mem_false_iff in H2.
  intros Hin. apply H2. now apply in_rev in Hin.
Qed.

Lemma chunks_for_snoc (slot : Z) (frs : list ToolCall) (tc : ToolCall) :
  chunks_for slot (frs ++ [tc]) =
  if index tc =? slot
  then (chunks_for slot frs ++ or_empty (function_arguments tc))%string
  else chunks_for slot frs.
Proof.
  unfold chunks_for. rewrite filter_app, map_app, concat_all_app. simpl.
  destruct (index tc =? slot); simpl.
  - now rewrite append_empty_r.
  - now rewrite append_empty_r.
Qed.

Lemma chunks_for_unused (slot : Z) (frs : list ToolCall) :
  ~ In slot (map index frs) -> chunks_for slot frs = "".
Proof.
  unfold chunks_for. induction frs as [| a frs IH]; simpl; intros Hnin.
  - reflexivity.
  - destruct (Z.eqb_spec (index a) slot) as [Heq | Hne].
    + exfalso. apply Hnin. now left.
    + apply IH. tauto.
Qed.

Lemma NoDup_snoc {A} (l : list A) (x : A) :
  NoDup l -> ~ In x l -> NoDup (l ++ [x]).
Proof.
  induction l as [| a l IH]; simpl; intros Hnd Hnin.
  - constructor; [tauto | constructor].
  - inversion Hnd as [| ? ? Ha Hnd']; subst. constructor.
    + rewrite in_app_iff. simpl. intros [H | [H | []]]; [tauto | subst; tauto].
    + apply IH; tauto.
Qed.

Lemma named_slots_used (frs : list ToolCall) (tc : ToolCall) :
  In tc (filter named frs) -> In (index tc) (map index frs).
Proof. intros H. apply filter_In in H as [H _]. now apply in_map. Qed.

(** Without slot reuse nothing is finalized early: the pending dictionary
    holds one entry per opening fragment, in order, with all the chunks of
    its slot. *)
Lemma fresh_run (frs : list ToolCall) :
  fresh_slots frs = true ->
  fold_left on_tool_call frs ([], []) =
    ([], map (fun tc => (index tc, completed_for frs tc)) (filter named frs))
  /\ NoDup (map index (filter named frs)).
Proof.
  induction frs as [| tc frs IH] using rev_ind; intros Hfresh.
  - split; [reflexivity | constructor].
  - apply fresh_slots_snoc in Hfresh as [Hfresh Hnew].
    destruct (IH Hfresh) as [Hrun Hnd]. clear IH.
    rewrite fold_left_app, Hrun. cbn [fold_left].
    set (d := map (fun tc0 => (index tc0, completed_for frs tc0)) (filter named frs)).
    assert (Hkeys : Slots.keys d = map index (filter named frs)).
    { unfold d, Slots.keys. rewrite map_map. reflexivity. }
    rewrite filter_app. cbn [filter].
    destruct (named tc) eqn:Hn.
    + specialize (Hnew eq_refl).
      assert (Hfind : Slots.find (index tc) d = None).
      { apply find_none_iff. rewrite Hkeys. intros Hin. apply Hnew.
        apply in_map_iff in Hin as [tc0 [Heq Hin]]. rewrite <- Heq.
        now apply named_slots_used. }
      rewrite on_tool_call_named by assumption. rewrite Hfind, set_absent by assumption.
      split.
      * f_equal. rewrite map_app. f_equal.
        -- apply map_ext_in. intros tc0 Hin. unfold completed_for.
           rewrite chunks_for_snoc.
           destruct (Z.eqb_spec (index tc) (index tc0)) as [Heq | _]; [| reflexivity].
           exfalso. apply Hnew. rewrite Heq. now apply named_slots_used.
        -- simpl. unfold completed_for. rewrite chunks_for_snoc, Z.eqb_refl.
           now rewrite chunks_for_unused.
      * rewrite map_app. apply NoDup_snoc; [assumption |].
        intros Hin. apply Hnew.
        apply in_map_iff in Hin as [tc0 [Heq Hin]]. rewrite <- Heq.
        now apply named_slots_used.
    + rewrite app_nil_r. split; [| assumption].
      rewrite on_tool_call_unnamed by assumption.
      destruct (Slots.find (index tc) d) as [pending |] eqn:Hfind.
      * f_equal.
        rewrite (set_update_map
                   (fun v => {| name := name v;
                                arguments := (arguments v ++ or_empty (function_arguments tc))%string |})
                   (index tc) d pending) by (rewrite ?Hkeys; assumption).
        unfold d. rewrite map_map. apply map_ext. intros tc0. simpl.
        unfold completed_for. rewrite chunks_for_snoc, (Z.eqb_sym (index tc)).
        now destruct (index tc0 =? index tc).
      * f_equal. apply map_ext_in. intros tc0 Hin. unfold completed_for.
        rewrite chunks_for_snoc.
        destruct (Z.eqb_spec (index tc) (index tc0)) as [Heq | _]; [| reflexivity].
        exfalso. apply find_none_iff in Hfind. apply Hfind. rewrite Hkeys, Heq.
        now apply in_map.
Qed.

(** C2, as the code has it.  When every named fragment uses a slot that no
    earlier fragment used, the aggregator completes exactly one invocation
    per slot opened by a named fragment, in the order of opening, and its
    arguments are all the chunks delivered for that slot, concatenated in
    arrival order. *)
Theorem one_invocation_per_opened_slot (stream : list Delta) :
  fresh_slots (fragments stream) = true ->
  collect_function_calls stream =
    map (completed_for (fragments stream)) (filter named (fragments stream))
  /\ NoDup (map index (filter named (fragments stream))).
Proof.
  intros Hfresh. destruct (fresh_run _ Hfresh) as [Hrun Hnd].
  split; [| assumption].
  unfold collect_function_calls, flush. rewrite run_stream_fragments, Hrun.
  unfold Slots.values. simpl. now rewrite map_map.
Qed.

(** ** The suggestion merger *)

Lemma severity_key_name (s : Severity) :
  severity_key (VStr (severity_name s)) = Ok (weight s).
Proof. destruct s; reflexivity. Qed.

Lemma represents_type (v : value) (i : Issue) :
  represents v i -> get v "type" (VStr "") = Ok (VStr (issue_type i)).
Proof.
  intros [entries [-> [H _]]]. simpl. unfold dict_get. now rewrite H.
Qed.

Lemma represents_severity (v : value) (i : Issue) :
  represents v i ->
  get v "severity" (VStr "medium") = Ok (VStr (severity_name (issue_severity i))).
Proof.
  intros [entries [-> [_ [H _]]]]. simpl. unfold dict_get. now rewrite H.
Qed.

Lemma represents_description (v : value) (i : Issue) :
  represents v i -> get v "description" (VStr "") = Ok (VStr (issue_description i)).
Proof.
  intros [entries [-> [_ [_ H]]]]. simpl. unfold dict_get. now rewrite H.
Qed.

Lemma comprehension_issues (f : value -> result value) (proj : Issue -> value)
      (items : list value) (issues : list Issue) :
  (forall v i, represents v i -> f v = Ok (proj i)) ->
  Forall2 represents items issues ->
  comprehension f items = Ok (map proj issues).
Proof.
  intros Hf H. induction H as [| v i items issues Hr _ IH]; simpl.
  - reflexivity.
  - now rewrite (Hf _ _ Hr), IH.
Qed.

Lemma strings_of_issues (f : Issue -> string) (issues : list Issue) :
  strings (map (fun i => VStr (f i)) issues) = Ok (map f issues).
Proof.
  induction issues as [| i issues IH]; simpl.
  - reflexivity.
  - now rewrite IH.
Qed.

Lemma join_of_issues (sep : string) (f : Issue -> string) (issues : list Issue) :
  join sep (map (fun i => VStr (f i)) issues) = Ok (String.concat sep (map f issues)).
Proof. unfold join. now rewrite strings_of_issues. Qed.

(** [max] returns the first element whose key is maximal. *)
Lemma max_loop_first_max {A B} (f : A -> B) (w : A -> Z) (rest : list A) (best : A) :
  exists before top after,
    best :: rest = before ++ top :: after /\
    max_loop (f best) (w best) (map (fun x => (f x, w x)) rest) = f top /\
    Forall (fun x => w x < w top) before /\
    Forall (fun x => w x <= w top) after.
Proof.
  revert best. induction rest as [| x rest IH]; intros best; simpl.
  - exists [], best, []. repeat split; constructor.
  - destruct (Z.gtb_spec (w x) (w best)) as [Hgt | Hle].
    + destruct (IH x) as [before [top [after [Hsplit [Hmax [Hb Ha]]]]]].
      exists (best :: before), top, after. repeat split.
      * simpl. now rewrite Hsplit.
      * exact Hmax.
      * constructor; [| exact Hb].
        destruct before as [| y before]; simpl in Hsplit; injection Hsplit as Hx _.
        -- subst. lia.
        -- subst. inversion Hb; subst. lia.
      * exact Ha.
    + destruct (IH best) as [before [top [after [Hsplit [Hmax [Hb Ha]]]]]].
      destruct before as [| y before]; simpl in Hsplit; injection Hsplit as Hy Hrest.
      * subst. exists [], top, (x :: after). repeat split.
        -- exact Hmax.
        -- constructor.
        -- constructor; [lia | exact Ha].
      * subst. inversion Hb; subst.
        exists (y :: x :: before), top, after. repeat split.
        -- exact Hmax.
        -- constructor; [assumption | constructor; [lia | assumption]].
        -- exact Ha.
Qed.

Lemma max_by_severities (issues : list Issue) :
  issues <> [] ->
  exists before top after,
    issues = before ++ top :: after /\
    max_by severity_key (map (fun i => VStr (severity_name (issue_severity i))) issues)
      = Ok (VStr (severity_name (issue_severity top))) /\
    Forall (fun i => weight (issue_severity i) < weight (issue_severity top)) before /\
    Forall (fun i => weight (issue_severity i) <= weight (issue_severity top)) after.
Proof.
  intros Hne. destruct issues as [| best rest]; [congruence |].
  destruct (max_loop_first_max
              (fun i => VStr (severity_name (issue_severity i)))
              (fun i => weight (issue_severity i)) rest best)
    as [before [top [after [Hsplit [Hmax [Hb Ha]]]]]].
  exists before, top, after. repeat split; try assumption.
  unfold max_by.
  assert (Hkeys : forall l : list Issue,
    comprehension (fun x => k <- severity_key x ;; Ok (x, k))
                  (map (fun i => VStr (severity_name (issue_severity i))) l)
    = Ok (map (fun i => (VStr (severity_name (issue_severity i)),
                         weight (issue_severity i))) l)).
  { induction l as [| i l IH]; simpl.
    - reflexivity.
    - rewrite severity_key_name. simpl. now rewrite IH. }
  rewrite Hkeys. simpl. now rewrite Hmax.
Qed.

(** The entry the merger builds from a list of well-formed issues. *)
Lemma merge_issues_represented (args : list (string * value))
      (items : list value) (issues : list Issue) :
  issues <> [] ->
  Forall2 represents items issues ->
  exists before top after,
    issues = before ++ top :: after /\
    Forall (fun i => weight (issue_severity i) < weight (issue_severity top)) before /\
    Forall (fun i => weight (issue_severity i) <= weight (issue_severity top)) after /\
    merge_issues (VDict args) (VList items) =
      Ok (VDict [("type", VStr (String.concat " & " (map issue_type issues)));
                 ("severity", VStr (severity_name (issue_severity top)));
                 ("paragraph", dict_get args "paragraph" (VInt 1));
                 ("description", VStr (String.concat " | " (map issue_description issues)));
                 ("text", dict_get args "originalText" (VStr ""));
                 ("suggestion", dict_get args "replaceTo" (VStr ""));
                 ("originalText", dict_get args "originalText" (VStr ""));
                 ("replaceTo", dict_get args "replaceTo" (VStr ""));
                 ("issues", VList items)]).
Proof.
  intros Hne Hrep.
  destruct (max_by_severities issues Hne) as [before [top [after [Hsplit [Hmax [Hb Ha]]]]]].
  exists before, top, after. repeat split; try assumption.
  unfold merge_issues. simpl iter. cbn [Py.bind].
  rewrite (comprehension_issues _ (fun i => VStr (issue_type i)) items issues
             represents_type Hrep). cbn [Py.bind].
  rewrite (comprehension_issues _ (fun i => VStr (issue_description i)) items issues
             represents_description Hrep). cbn [Py.bind].
  rewrite (comprehension_issues _ (fun i => VStr (severity_name (issue_severity i)))
             items issues represents_severity Hrep). cbn [Py.bind].
  rewrite Hmax. cbn [Py.bind].
  rewrite !join_of_issues. reflexivity.
Qed.

Lemma normalize_current_shape (args : list (string * value)) (items : list value) :
  lookup "issues" args = Some (VList items) ->
  items <> [] ->
  normalize_issues (VDict args) = Ok (VList items).
Proof.
  intros Hl Hne. unfold normalize_issues. simpl. unfold dict_get. rewrite Hl.
  destruct items; [congruence | reflexivity].
Qed.

Lemma create_suggestion_current_shape (args : list (string * value))
      (items : list value) (issues : list Issue) :
  issues <> [] ->
  lookup "issues" args = Some (VList items) ->
  Forall2 represents items issues ->
  exists before top after,
    issues = before ++ top :: after /\
    Forall (fun i => weight (issue_severity i) < weight (issue_severity top)) before /\
    Forall (fun i => weight (issue_severity i) <= weight (issue_severity top)) after /\
    create_suggestion (VDict args) =
      Ok (Some (VDict [("type", VStr (String.concat " & " (map issue_type issues)));
                       ("severity", VStr (severity_name (issue_severity top)));
                       ("paragraph", dict_get args "paragraph" (VInt 1));
                       ("description", VStr (String.concat " | " (map issue_description issues)));
                       ("text", dict_get args "originalText" (VStr ""));
                       ("suggestion", dict_get args "replaceTo" (VStr ""));
                       ("originalText", dict_get args "originalText" (VStr ""));
                       ("replaceTo", dict_get args "replaceTo" (VStr ""));
                       ("issues", VList items)])).
Proof.
  intros Hne Hl Hrep.
  destruct (merge_issues_represented args items issues Hne Hrep)
    as [before [top [after [Hsplit [Hb [Ha Hmerge]]]]]].
  exists before, top, after. repeat split; try assumption.
  assert (Hitems : items <> []).
  { intros ->. inversion Hrep. congruence. }
  unfold create_suggestion.
  rewrite (normalize_current_shape args items Hl Hitems). cbn [Py.bind].
  destruct items as [| v items]; [congruence |]. cbn [truthy].
  now rewrite Hmerge.
Qed.

(** C4.  For a non-empty list of issues with severities among high, medium
    and low, the severity of the merged entry is that of the first issue, in
    input order, whose weight under high:3, medium:2, low:1 is maximal:
    every issue before it weighs strictly less, every issue after it weighs
    no more.  Severities low, high, medium merge to high; medium, medium
    merge to medium, taken from the first issue. *)
Theorem merged_severity_stable_argmax (args : list (string * value))
        (items : list value) (issues : list Issue) :
  issues <> [] ->
  lookup "issues" args = Some (VList items) ->
  Forall2 represents items issues ->
  exists entry before top after,
    create_suggestion (VDict args) = Ok (Some (VDict entry)) /\
    lookup "severity" entry = Some (VStr (severity_name (issue_severity top))) /\
    issues = before ++ top :: after /\
    Forall (fun i => weight (issue_severity i) < weight (issue_severity top)) before /\
    Forall (fun i => weight (issue_severity i) <= weight (issue_severity top)) after /\
    (map issue_severity issues = [Low; High; Medium] ->
     lookup "severity" entry = Some (VStr "high")) /\
    (map issue_severity issues = [Medium; Medium] ->
     before = [] /\ lookup "severity" entry = Some (VStr "medium")).
Proof.
  intros Hne Hl Hrep.
  destruct (create_suggestion_current_shape args items issues Hne Hl Hrep)
    as [before [top [after [Hsplit [Hb [Ha Hcreate]]]]]].
  eexists. exists before, top, after.
  split; [exact Hcreate |]. split; [reflexivity |].
  split; [exact Hsplit |]. split; [exact Hb |]. split; [exact Ha |].
  cbn [lookup String.eqb Ascii.eqb Bool.eqb].
  split; intros Hsev; rewrite Hsplit, map_app in Hsev; cbn [map] in Hsev.
  - destruct before as [| b1 [| b2 [| b3 before]]]; cbn in Hsev.
    + destruct after as [| a1 after]; [discriminate |].
      injection Hsev as Htop Ha1 _. inversion Ha as [| ? ? Hw _]; subst.
      rewrite Htop, Ha1 in Hw. cbn in Hw. lia.
    + injection Hsev as _ Htop _. now rewrite Htop.
    + injection Hsev as _ Hb2 Htop _. inversion Hb as [| ? ? _ Hb']; subst.
      inversion Hb' as [| ? ? Hw _]; subst.
      rewrite Htop, Hb2 in Hw. cbn in Hw. lia.
    + destruct before; discriminate.
  - destruct before as [| b1 [| b2 before]]; cbn in Hsev.
    + injection Hsev as Htop _. now rewrite Htop.
    + injection Hsev as Hb1 Htop _. inversion Hb as [| ? ? Hw _]; subst.
      rewrite Htop, Hb1 in Hw. cbn in Hw. lia.
    + destruct before; discriminate.
Qed.

(** C5.  For a non-empty list of issues, the type of the merged entry is
    the issues' types joined with " & " and its description their
    descriptions joined with " | ", both in input order; the types
    Structure, Punctuation give "Structure & Punctuation". *)
Theorem merged_fields_join_in_input_order (args : list (string * value))
        (items : list value) (issues : list Issue) :
  issues <> [] ->
  lookup "issues" args = Some (VList items) ->
  Forall2 represents items issues ->
  exists entry,
    create_suggestion (VDict args) = Ok (Some (VDict entry)) /\
    lookup "type" entry =
      Some (VStr (String.concat " & " (map issue_type issues))) /\
    lookup "description" entry =
      Some (VStr (String.concat " | " (map issue_description issues))) /\
    (map issue_type issues = ["Structure"; "Punctuation"]%string ->
     lookup "type" entry = Some (VStr "Structure & Punctuation")) /\
    (forall a b, map issue_description issues = [a; b] ->
     lookup "description" entry = Some (VStr (a ++ " | " ++ b))).
Proof.
  intros Hne Hl Hrep.
  destruct (create_suggestion_current_shape args items issues Hne Hl Hrep)
    as [before [top [after [_ [_ [_ Hcreate]]]]]].
  eexists. split; [exact Hcreate |].
  cbn [lookup String.eqb Ascii.eqb Bool.eqb].
  repeat split.
  - intros ->. reflexivity.
  - intros a b ->. reflexivity.
Qed.

(** ** The dispatch loop *)


Lemma on_function_call_suggestion (st : Collected) (call : FunctionCall)
      (args : value) (entry : option value) :
  name call = "create_suggestion" ->
  json_loads (arguments call) = Ok args ->
  create_suggestion args = Ok entry ->
  on_function_call st call =
  Ok (match entry with
      | Some issue => (fst st ++ [issue], snd st)
      | None => st
      end).
Proof.
  intros Hn Hl Hc. unfold on_function_call. destruct st as [issues diagram_insertions].
  rewrite Hn, Hl, Hc. simpl. now destruct entry.
Qed.

Lemma dispatch_app (before after : list FunctionCall) (st : Collected) :
  dispatch (before ++ after) st = (st' <- dispatch before st ;; dispatch after st').
Proof.
  revert st. induction before as [| call before IH]; intros st; simpl.
  - reflexivity.
  - destruct (on_function_call st call) as [st' | e]; simpl; [apply IH | reflexivity].
Qed.

(** A call that leaves every state as it is can be removed from the list. *)
Lemma dispatch_skip (call : FunctionCall) (before after : list FunctionCall)
      (st : Collected) :
  (forall st', on_function_call st' call = Ok st') ->
  dispatch (before ++ call :: after) st = dispatch (before ++ after) st.
Proof.
  intros Hskip. rewrite !dispatch_app.
  destruct (dispatch before st) as [st' | e]; simpl; [| reflexivity].
  now rewrite Hskip.
Qed.

Lemma represents_issue_value (i : Issue) : represents (issue_value i) i.
Proof. eexists. split; [reflexivity |]. repeat split. Qed.




(** C10.  A [create_suggestion] invocation whose arguments parse to an
    object with an absent or empty [issues] array and an absent or empty
    [type] adds no entry and raises nothing: the loop keeps its state, and
    the cycle returns what the other invocations give. *)
Theorem empty_suggestion_skipped (call : FunctionCall) (args : list (string * value)) :
  name call = "create_suggestion" ->
  json_loads (arguments call) = Ok (VDict args) ->
  lookup "issues" args = None \/ lookup "issues" args = Some (VList []) ->
  lookup "type" args = None \/ lookup "type" args = Some (VStr "") ->
  create_suggestion (VDict args) = Ok None /\
  (forall st, on_function_call st call = Ok st) /\
  (forall before after st,
      dispatch (before ++ call :: after) st = dispatch (before ++ after) st) /\
  (forall stream before after,
      collect_function_calls stream = before ++ call :: after ->
      review_document_with_functions stream =
        respond (dispatch (before ++ after) ([], []))).
Proof.
  intros Hname Hloads Hissues Htype.
  assert (Hcreate : create_suggestion (VDict args) = Ok None).
  { unfold create_suggestion, normalize_issues. simpl. unfold dict_get.
    destruct Hissues as [-> | ->], Htype as [-> | ->]; reflexivity. }
  assert (Hskip : forall st, on_function_call st call = Ok st).
  { intros st. now rewrite (on_function_call_suggestion _ _ _ _ Hname Hloads Hcreate). }
  split; [exact Hcreate |]. split; [exact Hskip |]. split.
  - intros before after st. now apply dispatch_skip.
  - intros stream before after Hcollect.
    unfold review_document_with_functions. rewrite Hcollect.
    now rewrite dispatch_skip.
Qed.

(** ** Plain text *)

Lemma chat_dispatch_yields (calls : list FunctionCall) (out : list chunk) :
  yielded (chat_dispatch calls out) = out ++ yielded (chat_dispatch calls []).
Proof.
  revert out. induction calls as [| call calls IH]; intros out; simpl.
  - now rewrite app_nil_r.
  - destruct (chat_on_function_call call) as [[text |] | e]; simpl.
    + rewrite IH, (IH [text]). now rewrite app_assoc.
    + apply IH.
    + now rewrite app_nil_r.
Qed.

Lemma fragments_without_text (stream : list Delta) :
  fragments (map without_text stream) = fragments stream.
Proof.
  induction stream as [| delta stream IH]; simpl; [reflexivity | now rewrite IH].
Qed.

(** C8, as the code has it.  The chat cycle yields every non-empty
    plain-text fragment in arrival order, ahead of what the completed
    invocations produce and whatever they produce; the review cycle does not
    look at plain text, and the only value it can yield is the serialized
    response. *)
Theorem text_passthrough (stream : list Delta) :
  chat_with_document_context stream =
    chat_dispatch (collect_function_calls stream) (texts stream)
  /\ yielded (chat_with_document_context stream) =
       texts stream ++ yielded (chat_dispatch (collect_function_calls stream) [])
  /\ review_document_with_functions stream =
       review_document_with_functions (map without_text stream)
  /\ (forall text, In text (yielded (review_document_with_functions stream)) ->
        exists st, text = [Dumps false (response st)]).
Proof.
  assert (Hchat : chat_with_document_context stream =
                  chat_dispatch (collect_function_calls stream) (texts stream)).
  { unfold chat_with_document_context. now rewrite chat_fold. }
  split; [exact Hchat |]. split; [| split].
  - rewrite Hchat. apply chat_dispatch_yields.
  - unfold review_document_with_functions, collect_function_calls.
    now rewrite !run_stream_fragments, fragments_without_text.
  - intros text. unfold review_document_with_functions, respond.
    destruct (dispatch _ _) as [st | e]; simpl; [| tauto].
    intros [<- | []]. now exists st.
Qed.

(** ** Every opening fragment completes once *)

Lemma NoDup_keys_set (k : Z) (v : FunctionCall) (d : Slots.t) :
  NoDup (Slots.keys d) -> NoDup (Slots.keys (Slots.set k v d)).
Proof.
  intros Hnd. rewrite keys_set. destruct (mem k (Slots.keys d)) eqn:Hm.
  - exact Hnd.
  - apply NoDup_snoc; [exact Hnd | now apply mem_false_iff].
Qed.

(** The slots of the pending dictionary stay pairwise distinct. *)
Lemma NoDup_keys_on_tool_call (st : AggState) (tc : ToolCall) :
  NoDup (Slots.keys (snd st)) -> NoDup (Slots.keys (snd (on_tool_call st tc))).
Proof.
  intros Hnd. rewrite keys_on_tool_call.
  destruct (named tc); [| exact Hnd].
  destruct (mem (index tc) (Slots.keys (snd st))) eqn:Hm; [exact Hnd |].
  apply NoDup_snoc; [exact Hnd | now apply mem_false_iff].
Qed.

Lemma NoDup_keys_fold (frs : list ToolCall) (st : AggState) :
  NoDup (Slots.keys (snd st)) ->
  NoDup (Slots.keys (snd (fold_left on_tool_call frs st))).
Proof.
  revert st. induction frs as [| tc frs IH]; intros st Hnd; simpl.
  - exact Hnd.
  - apply IH. now apply NoDup_keys_on_tool_call.
Qed.

(** A pending slot splits the dictionary around its entry. *)
Lemma find_split (k : Z) (d : Slots.t) (v : FunctionCall) :
  NoDup (Slots.keys d) ->
  Slots.find k d = Some v ->
  exists d1 d2,
    d = d1 ++ (k, v) :: d2 /\
    ~ In k (Slots.keys d1) /\ ~ In k (Slots.keys d2) /\
    forall v', Slots.set k v' d = d1 ++ (k, v') :: d2.
Proof.
  induction d as [| [k' w] d IH]; simpl; intros Hnd Hf.
  - discriminate.
  - inversion Hnd as [| ? ? Hnin Hnd']; subst.
    destruct (Z.eqb_spec k' k) as [-> | Hne].
    + injection Hf as ->. exists [], d. repeat split; simpl; tauto.
    + destruct (IH Hnd' Hf) as [d1 [d2 [Hd [H1 [H2 Hset]]]]].
      exists ((k', w) :: d1), d2. repeat split.
      * simpl. now rewrite Hd.
      * simpl. intros [Heq | Hin]; [congruence | tauto].
      * exact H2.
      * intros v'. simpl. now rewrite Hset.
Qed.

Lemma continuation_other (slot : Z) (tc : ToolCall) (rest : list ToolCall) :
  index tc <> slot -> continuation slot (tc :: rest) = continuation slot rest.
Proof.
  intros Hne. simpl. destruct (Z.eqb_spec (index tc) slot); [contradiction | reflexivity].
Qed.

Lemma extended_other (tc : ToolCall) (rest : list ToolCall) (d : Slots.t) :
  ~ In (index tc) (Slots.keys d) ->
  map (extended (tc :: rest)) d = map (extended rest) d.
Proof.
  intros Hnin. apply map_ext_in. intros [k v] Hin. unfold extended. simpl fst. simpl snd.
  rewrite continuation_other; [reflexivity |].
  intros Heq. apply Hnin. rewrite Heq. change k with (fst (k, v)). now apply in_map.
Qed.

Lemma extended_reopened (tc : ToolCall) (rest : list ToolCall) (v : FunctionCall) :
  named tc = true -> extended (tc :: rest) (index tc, v) = v.
Proof.
  intros Hn. unfold extended. cbn [fst snd continuation].
  rewrite Z.eqb_refl, Hn, append_empty_r. now destruct v.
Qed.

Lemma extended_appended (tc : ToolCall) (rest : list ToolCall) (v : FunctionCall) :
  named tc = false ->
  extended (tc :: rest) (index tc, v) =
  extended rest (index tc,
                 {| name := name v;
                    arguments := (arguments v ++ or_empty (function_arguments tc))%string |}).
Proof.
  intros Hn. unfold extended. cbn [fst snd name arguments continuation].
  now rewrite Z.eqb_refl, Hn, append_assoc.
Qed.

Lemma extended_nil (d : Slots.t) : map (extended []) d = Slots.values d.
Proof.
  unfold Slots.values. apply map_ext. intros [k [n a]]. unfold extended. simpl.
  now rewrite append_empty_r.
Qed.

(** What the loop will have completed, from any state with distinct slots:
    what is completed already, the pending invocations with their
    continuations, and the invocations that are still to be opened. *)
Lemma flush_fold (frs : list ToolCall) (function_calls : list FunctionCall)
      (d : Slots.t) :
  NoDup (Slots.keys d) ->
  Permutation (flush (fold_left on_tool_call frs (function_calls, d)))
              (function_calls ++ map (extended frs) d ++ openings frs).
Proof.
  revert function_calls d.
  induction frs as [| tc rest IH]; intros function_calls d Hnd.
  - simpl. unfold flush. simpl. now rewrite extended_nil, app_nil_r.
  - cbn [fold_left].
    destruct (named tc) eqn:Hn.
    + rewrite on_tool_call_named by assumption. cbn [openings]. rewrite Hn.
      destruct (Slots.find (index tc) d) as [previous |] eqn:Hf.
      * destruct (find_split _ _ _ Hnd Hf) as [d1 [d2 [Hd [H1 [H2 Hset]]]]].
        rewrite Hset.
        assert (Hnd' : NoDup (Slots.keys (d1 ++ (index tc, {| name := or_empty (function_name tc);
                  arguments := or_empty (function_arguments tc) |}) :: d2))).
        { rewrite <- Hset. now apply NoDup_keys_set. }
        rewrite (IH _ _ Hnd'). rewrite Hd.
        rewrite !map_app. cbn [map].
        rewrite (extended_other tc rest d1 H1), (extended_other tc rest d2 H2).
        rewrite (extended_reopened tc rest previous Hn).
        rewrite <- !app_assoc. apply Permutation_app_head.
        cbn [app]. etransitivity; [| apply Permutation_middle].
        apply perm_skip. apply Permutation_app_head.
        apply (Permutation_middle (map (extended rest) d2) (openings rest)).
      * rewrite (set_absent _ _ _ Hf).
        assert (Hnin : ~ In (index tc) (Slots.keys d)) by now apply find_none_iff.
        assert (Hnd' : NoDup (Slots.keys (d ++ [(index tc, {| name := or_empty (function_name tc);
                  arguments := or_empty (function_arguments tc) |})]))).
        { rewrite <- (set_absent _ _ _ Hf). now apply NoDup_keys_set. }
        rewrite (IH _ _ Hnd'). rewrite map_app, (extended_other tc rest d Hnin).
        cbn [map]. rewrite <- !app_assoc. reflexivity.
    + rewrite on_tool_call_unnamed by assumption. cbn [openings]. rewrite Hn.
      destruct (Slots.find (index tc) d) as [pending |] eqn:Hf.
      * destruct (find_split _ _ _ Hnd Hf) as [d1 [d2 [Hd [H1 [H2 Hset]]]]].
        rewrite Hset.
        assert (Hnd' : NoDup (Slots.keys (d1 ++ (index tc, {| name := name pending;
                  arguments := (arguments pending ++ or_empty (function_arguments tc))%string |}) :: d2))).
        { rewrite <- Hset. now apply NoDup_keys_set. }
        rewrite (IH _ _ Hnd'). rewrite Hd.
        rewrite !map_app. cbn [map].
        rewrite (extended_other tc rest d1 H1), (extended_other tc rest d2 H2).
        rewrite (extended_appended tc rest pending Hn). reflexivity.
      * assert (Hnin : ~ In (index tc) (Slots.keys d)) by now apply find_none_iff.
        rewrite (IH _ _ Hnd), (extended_other tc rest d Hnin). reflexivity.
Qed.

Lemma length_openings (frs : list ToolCall) :
  List.length (openings frs) = List.length (filter named frs).
Proof.
  induction frs as [| tc rest IH]; simpl; [reflexivity |].
  destruct (named tc); simpl; now rewrite IH.
Qed.

(** X1.  Whatever the stream, slot reuse included, the completed
    invocations are, up to their order, one per named fragment: its name,
    with its own arguments followed by the chunks that nameless fragments
    deliver to its slot before a named fragment opens that slot again.  No
    invocation is lost or doubled: there are as many as named fragments. *)
Theorem every_opening_completes_once (stream : list Delta) :
  Permutation (collect_function_calls stream) (openings (fragments stream))
  /\ List.length (collect_function_calls stream) =
       List.length (filter named (fragments stream)).
Proof.
  assert (H : Permutation (collect_function_calls stream)
                          (openings (fragments stream))).
  { unfold collect_function_calls. rewrite run_stream_fragments.
    rewrite (flush_fold (fragments stream) [] []) by constructor. reflexivity. }
  split; [exact H |].
  rewrite (Permutation_length H). apply length_openings.
Qed.

(** ** The merger on arbitrary items *)

Lemma comprehension_get_objects (k : string) (default : value) (items : list value) :
  forallb is_object items = true ->
  comprehension (fun issue => get issue k default) items
  = Ok (map (member k default) items).
Proof.
  induction items as [| item items IH]; simpl; intros H.
  - reflexivity.
  - apply andb_prop in H as [Hobj Hrest]. destruct item; try discriminate.
    simpl. now rewrite (IH Hrest).
Qed.

Lemma comprehension_get_inv (k : string) (default : value) (items vs : list value) :
  comprehension (fun issue => get issue k default) items = Ok vs ->
  forallb is_object items = true.
Proof.
  revert vs. induction items as [| item items IH]; simpl; intros vs H.
  - reflexivity.
  - destruct item; try discriminate. simpl in H.
    destruct (comprehension _ items) as [ws |] eqn:Hc; [| discriminate].
    simpl. now apply (IH ws).
Qed.

Lemma strings_texts (k : string) (items : list value) :
  forallb (fun item => is_str (member k (VStr "") item)) items = true ->
  strings (map (member k (VStr "")) items) = Ok (map (member_text k) items).
Proof.
  induction items as [| item items IH]; simpl; intros H.
  - reflexivity.
  - apply andb_prop in H as [Hs Hrest]. unfold member_text.
    destruct (member k (VStr "") item); try discriminate.
    now rewrite (IH Hrest).
Qed.

Lemma strings_inv (k : string) (items : list value) (ss : list string) :
  strings (map (member k (VStr "")) items) = Ok ss ->
  forallb (fun item => is_str (member k (VStr "") item)) items = true.
Proof.
  revert ss. induction items as [| item items IH]; simpl; intros ss H.
  - reflexivity.
  - destruct (member k (VStr "") item); try discriminate.
    destruct (strings _) as [ts |] eqn:Hs; [| discriminate].
    simpl. now apply (IH ts).
Qed.

Lemma severity_key_rank (x : value) :
  severity_key x = if hashable x then Ok (severity_rank x) else Raise TypeError.
Proof.
  unfold severity_key, severity_rank. destruct (hashable x); [| reflexivity].
  destruct x; try reflexivity. now destruct (order_lookup s severity_order).
Qed.

Lemma keyed_severities (xs : list value) :
  forallb hashable xs = true ->
  comprehension (fun x => k <- severity_key x ;; Ok (x, k)) xs
  = Ok (map (fun x => (x, severity_rank x)) xs).
Proof.
  induction xs as [| x xs IH]; simpl; intros H.
  - reflexivity.
  - apply andb_prop in H as [Hx Hrest].
    rewrite severity_key_rank, Hx. simpl. now rewrite (IH Hrest).
Qed.

Lemma keyed_severities_inv (xs : list value) (keyed : list (value * Z)) :
  comprehension (fun x => k <- severity_key x ;; Ok (x, k)) xs = Ok keyed ->
  forallb hashable xs = true.
Proof.
  revert keyed. induction xs as [| x xs IH]; simpl; intros keyed H.
  - reflexivity.
  - rewrite severity_key_rank in H. destruct (hashable x); [| discriminate].
    simpl in H. destruct (comprehension _ xs) as [ks |] eqn:Hc; [| discriminate].
    simpl. now apply (IH ks).
Qed.

(** [max] over severities of any kind: the first of maximal rank. *)
Lemma max_by_rank (xs : list value) :
  xs <> [] ->
  forallb hashable xs = true ->
  exists before top after,
    xs = before ++ top :: after /\
    max_by severity_key xs = Ok top /\
    Forall (fun x => severity_rank x < severity_rank top) before /\
    Forall (fun x => severity_rank x <= severity_rank top) after.
Proof.
  intros Hne Hh. destruct xs as [| best rest]; [congruence |].
  destruct (max_loop_first_max (fun x : value => x) severity_rank rest best)
    as [before [top [after [Hsplit [Hmax [Hb Ha]]]]]].
  exists before, top, after. repeat split; try assumption.
  unfold max_by. rewrite (keyed_severities _ Hh). simpl. now rewrite Hmax.
Qed.

Lemma well_shaped_parts (items : list value) :
  forallb well_shaped items = true <->
  forallb is_object items = true /\
  forallb (fun item => is_str (member "type" (VStr "") item)) items = true /\
  forallb (fun item => is_str (member "description" (VStr "") item)) items = true /\
  forallb hashable (map item_severity items) = true.
Proof.
  induction items as [| item items IH]; simpl.
  - tauto.
  - unfold well_shaped at 1. rewrite !andb_true_iff, IH. clear. tauto.
Qed.

(** The merger succeeds on accepted items, with the first severity of
    maximal rank. *)
Lemma merge_issues_accepts (args : list (string * value)) (items : list value) :
  items <> [] ->
  forallb well_shaped items = true ->
  exists before top after,
    map item_severity items = before ++ top :: after /\
    Forall (fun x => severity_rank x < severity_rank top) before /\
    Forall (fun x => severity_rank x <= severity_rank top) after /\
    merge_issues (VDict args) (VList items) = Ok (merged_entry args items top).
Proof.
  intros Hne Hws. apply well_shaped_parts in Hws as [Hobj [Hty [Hde Hha]]].
  destruct (max_by_rank (map item_severity items)) as [before [top [after [Hsplit [Hmax [Hb Ha]]]]]].
  { destruct items; [congruence | discriminate]. }
  { exact Hha. }
  exists before, top, after. repeat split; try assumption.
  unfold merge_issues. simpl iter. cbn [Py.bind].
  rewrite !(comprehension_get_objects _ _ _ Hobj). cbn [Py.bind].
  fold (map item_severity items).
  change (map (member "severity" (VStr "medium")) items) with (map item_severity items).
  rewrite Hmax. cbn [Py.bind]. unfold join.
  rewrite (strings_texts "type" items Hty), (strings_texts "description" items Hde).
  reflexivity.
Qed.

(** The merger raises on anything else. *)
Lemma merge_issues_inv (args : list (string * value)) (text_issues entry : value) :
  truthy text_issues = true ->
  merge_issues (VDict args) text_issues = Ok entry ->
  exists items,
    text_issues = VList items /\ items <> [] /\ forallb well_shaped items = true.
Proof.
  intros Htruthy Hmerge. unfold merge_issues in Hmerge.
  destruct text_issues as [| b | n | f | s | items | entries]; simpl iter in Hmerge;
    try discriminate.
  - destruct s as [| c s]; [discriminate |]. discriminate.
  - exists items. split; [reflexivity |]. split.
    { intros ->. discriminate. }
    cbn [Py.bind] in Hmerge.
    destruct (comprehension (fun issue => get issue "type" (VStr "")) items)
      as [types |] eqn:Htypes; [| discriminate].
    pose proof (comprehension_get_inv _ _ _ _ Htypes) as Hobj.
    rewrite (comprehension_get_objects _ _ _ Hobj) in Htypes. injection Htypes as <-.
    cbn [Py.bind] in Hmerge.
    rewrite !(comprehension_get_objects _ _ _ Hobj) in Hmerge. cbn [Py.bind] in Hmerge.
    destruct (max_by severity_key (map (member "severity" (VStr "medium")) items))
      as [top |] eqn:Hmax; [| discriminate].
    cbn [Py.bind] in Hmerge. unfold join in Hmerge.
    destruct (strings (map (member "type" (VStr "")) items)) as [ts |] eqn:Hts;
      [| discriminate].
    cbn [Py.bind] in Hmerge.
    destruct (strings (map (member "description" (VStr "")) items)) as [ds |] eqn:Hds;
      [| discriminate].
    apply well_shaped_parts. repeat split.
    + exact Hobj.
    + exact (strings_inv _ _ _ Hts).
    + exact (strings_inv _ _ _ Hds).
    + unfold max_by in Hmax.
      destruct (comprehension _ (map (member "severity" (VStr "medium")) items))
        as [keyed |] eqn:Hk; [| discriminate].
      exact (keyed_severities_inv _ _ Hk).
  - destruct entries as [| [k v] entries]; discriminate.
Qed.

Lemma create_suggestion_inv (args entry : value) :
  create_suggestion args = Ok (Some entry) ->
  exists entries items,
    args = VDict entries /\
    normalize_issues args = Ok (VList items) /\
    items <> [] /\
    forallb well_shaped items = true /\
    merge_issues args (VList items) = Ok entry.
Proof.
  unfold create_suggestion. intros H.
  destruct (normalize_issues args) as [text_issues |] eqn:Hnorm; [| discriminate].
  cbn [Py.bind] in H.
  destruct (truthy text_issues) eqn:Htruthy; [| discriminate].
  destruct (merge_issues args text_issues) as [issue |] eqn:Hmerge; [| discriminate].
  injection H as <-.
  destruct args as [| | | | | | entries];
    try (unfold normalize_issues in Hnorm; discriminate).
  destruct (merge_issues_inv _ _ _ Htruthy Hmerge) as [items [-> [Hne Hws]]].
  exists entries, items. repeat split; assumption.
Qed.

(** X2.  For a non-empty [issues] array, the merger produces an entry
    exactly when every issue is an object whose [type] and [description],
    where present, are strings and whose [severity], where present, is
    hashable; otherwise it raises (which ends the review cycle, since only
    a JSON decoding error is caught). *)
Theorem merger_accepts_exactly_well_shaped (args : list (string * value))
        (items : list value) :
  lookup "issues" args = Some (VList items) ->
  items <> [] ->
  ((exists entry, create_suggestion (VDict args) = Ok (Some entry))
   <-> forallb well_shaped items = true)
  /\ (forallb well_shaped items = false ->
      exists e, create_suggestion (VDict args) = Raise e).
Proof.
  intros Hl Hne.
  assert (Hnorm : normalize_issues (VDict args) = Ok (VList items))
    by now apply normalize_current_shape.
  assert (Hiff : (exists entry, create_suggestion (VDict args) = Ok (Some entry))
                 <-> forallb well_shaped items = true).
  { split.
    - intros [entry Hc].
      destruct (create_suggestion_inv _ _ Hc) as [e [items' [_ [Hn' [_ [Hws _]]]]]].
      rewrite Hnorm in Hn'. now injection Hn' as <-.
    - intros Hws.
      destruct (merge_issues_accepts args items Hne Hws)
        as [before [top [after [_ [_ [_ Hmerge]]]]]].
      exists (merged_entry args items top). unfold create_suggestion.
      rewrite Hnorm. cbn [Py.bind].
      destruct items; [congruence |]. cbn [truthy]. now rewrite Hmerge. }
  split; [exact Hiff |].
  intros Hbad. unfold create_suggestion. rewrite Hnorm. cbn [Py.bind].
  destruct items as [| item items']; [congruence |]. cbn [truthy].
  destruct (merge_issues (VDict args) (VList (item :: items'))) as [entry |] eqn:Hm.
  - exfalso.
    destruct (merge_issues_inv args (VList (item :: items')) entry eq_refl Hm)
      as [items2 [Heq [_ Hws]]].
    injection Heq as <-. congruence.
  - now exists e.
Qed.

(** X3.  On issues of the accepted shape the merged entry takes missing
    members at their defaults: a missing [type] or [description] joins as
    the empty string, a missing [severity] counts as "medium", and a
    severity outside high/medium/low weighs 2 like medium.  The merged
    severity is the first severity of maximal weight. *)
Theorem merged_entry_with_defaults (args : list (string * value))
        (items : list value) :
  lookup "issues" args = Some (VList items) ->
  items <> [] ->
  forallb well_shaped items = true ->
  exists before top after,
    map item_severity items = before ++ top :: after /\
    Forall (fun x => severity_rank x < severity_rank top) before /\
    Forall (fun x => severity_rank x <= severity_rank top) after /\
    create_suggestion (VDict args) = Ok (Some (merged_entry args items top)).
Proof.
  intros Hl Hne Hws.
  destruct (merge_issues_accepts args items Hne Hws)
    as [before [top [after [Hsplit [Hb [Ha Hmerge]]]]]].
  exists before, top, after. repeat split; try assumption.
  unfold create_suggestion. rewrite (normalize_current_shape args items Hl Hne).
  cbn [Py.bind]. destruct items; [congruence |]. cbn [truthy]. now rewrite Hmerge.
Qed.

(** X4.  Every entry the review produces has the same nine members:
    [text] repeats [originalText], [suggestion] repeats [replaceTo],
    [paragraph] is 1 when absent, [issues] is a non-empty list of objects,
    and [severity] is the severity of one of those issues (never one of its
    own making). *)
Theorem entry_shape (args entry : value) :
  create_suggestion args = Ok (Some entry) ->
  exists entries items top,
    args = VDict entries /\
    entry = merged_entry entries items top /\
    items <> [] /\
    forallb is_object items = true /\
    In top (map item_severity items).
Proof.
  intros Hc.
  destruct (create_suggestion_inv _ _ Hc)
    as [entries [items [-> [_ [Hne [Hws Hmerge]]]]]].
  destruct (merge_issues_accepts entries items Hne Hws)
    as [before [top [after [Hsplit [_ [_ Hmerge']]]]]].
  rewrite Hmerge in Hmerge'. injection Hmerge' as ->.
  exists entries, items, top. repeat split; try assumption.
  - now apply well_shaped_parts in Hws as [Hobj _].
  - rewrite Hsplit. apply in_elt.
Qed.

(** ** The dispatch loop as a whole *)

Lemma on_function_call_shift (call : FunctionCall) (issues0 insertions0 : list value) :
  on_function_call (issues0, insertions0) call =
  match on_function_call ([], []) call with
  | Ok (issues, insertions) => Ok (issues0 ++ issues, insertions0 ++ insertions)
  | Raise e => Raise e
  end.
Proof.
  unfold on_function_call.
  destruct (name call =? "create_suggestion")%string.
  - destruct (json_loads (arguments call)) as [args | []];
      rewrite ?app_nil_r; try reflexivity.
    destruct (create_suggestion args) as [[issue |] |]; simpl;
      rewrite ?app_nil_r; reflexivity.
  - destruct (name call =? "insert_diagram")%string; [| now rewrite !app_nil_r].
    destruct (json_loads (arguments call)) as [args | []];
      rewrite ?app_nil_r; try reflexivity.
    destruct (diagram_insertion args) as [insertion |]; simpl; [| reflexivity].
    destruct (get args "insert_after_text" (VStr "")) as [anchor |]; simpl; [| reflexivity].
    destruct (sliceable anchor); simpl; rewrite ?app_nil_r; reflexivity.
Qed.

Lemma dispatch_shift (calls : list FunctionCall) (issues0 insertions0 : list value) :
  dispatch calls (issues0, insertions0) =
  match dispatch calls ([], []) with
  | Ok (issues, insertions) => Ok (issues0 ++ issues, insertions0 ++ insertions)
  | Raise e => Raise e
  end.
Proof.
  revert issues0 insertions0.
  induction calls as [| call calls IH]; intros issues0 insertions0; cbn [dispatch].
  - now rewrite !app_nil_r.
  - rewrite (on_function_call_shift call issues0 insertions0).
    destruct (on_function_call ([], []) call) as [[issues1 insertions1] |];
      cbn [Py.bind]; [| reflexivity].
    rewrite (IH (issues0 ++ issues1) (insertions0 ++ insertions1)), (IH issues1 insertions1).
    destruct (dispatch calls ([], [])) as [[issues insertions] |]; [| reflexivity].
    now rewrite !app_assoc.
Qed.

(** X5.  The dispatch loop only appends: what a list of invocations adds
    does not depend on what was collected before, and the results of two
    lists of invocations that do not raise concatenate, issues with issues
    and diagram insertions with diagram insertions. *)
Theorem dispatch_concatenates (first second : list FunctionCall)
        (issues1 insertions1 issues2 insertions2 : list value) :
  dispatch first ([], []) = Ok (issues1, insertions1) ->
  dispatch second ([], []) = Ok (issues2, insertions2) ->
  dispatch (first ++ second) ([], []) =
    Ok (issues1 ++ issues2, insertions1 ++ insertions2)
  /\ forall issues0 insertions0,
       dispatch (first ++ second) (issues0, insertions0) =
         Ok (issues0 ++ issues1 ++ issues2, insertions0 ++ insertions1 ++ insertions2).
Proof.
  intros H1 H2.
  assert (H : dispatch (first ++ second) ([], []) =
              Ok (issues1 ++ issues2, insertions1 ++ insertions2)).
  { rewrite dispatch_app, H1. cbn [Py.bind]. now rewrite dispatch_shift, H2. }
  split; [exact H |].
  intros issues0 insertions0. now rewrite dispatch_shift, H.
Qed.

Lemma on_function_call_skipped (st : Collected) (call : FunctionCall) :
  skipped call = true -> on_function_call st call = Ok st.
Proof.
  unfold skipped, on_function_call. destruct st as [issues insertions].
  destruct (name call =? "create_suggestion")%string,
           (name call =? "insert_diagram")%string,
           (json_loads (arguments call)) as [args | []]; simpl; intros H;
    try discriminate; reflexivity.
Qed.

Lemma dispatch_not_skipped (calls : list FunctionCall) (st : Collected) :
  dispatch (not_skipped calls) st = dispatch calls st.
Proof.
  unfold not_skipped.
  revert st. induction calls as [| call calls IH]; intros st; simpl.
  - reflexivity.
  - destruct (skipped call) eqn:Hr; simpl.
    + rewrite (on_function_call_skipped st call Hr). simpl. apply IH.
    + destruct (on_function_call st call); simpl; [apply IH | reflexivity].
Qed.

(** X6.  The review cycle steps over the invocations that have another
    name than [create_suggestion] and [insert_diagram], and over those on
    whose arguments [json.loads] raises a [JSONDecodeError]: two streams
    whose remaining invocations coincide, in order, give the same outcome,
    values yielded and exception raised alike.  An invocation of one of
    the two names on which [json.loads] raises another exception is not
    stepped over: it is among those that have to coincide. *)
Theorem review_depends_on_relevant_calls (stream stream' : list Delta) :
  not_skipped (collect_function_calls stream)
  = not_skipped (collect_function_calls stream') ->
  review_document_with_functions stream = review_document_with_functions stream'.
Proof.
  intros H. unfold review_document_with_functions.
  rewrite <- (dispatch_not_skipped (collect_function_calls stream)),
          <- (dispatch_not_skipped (collect_function_calls stream')).
  now rewrite H.
Qed.

(** X7.  Arguments that parse to anything but an object end the review
    cycle: when an invocation named [create_suggestion] or [insert_diagram]
    has such arguments and the invocations before it did not raise, the
    cycle yields nothing at all and raises [AttributeError], so the entries
    of the valid invocations before and after it are lost. *)
Theorem non_object_arguments_abort_review (stream : list Delta)
        (before after : list FunctionCall) (call : FunctionCall)
        (args : value) (st : Collected) :
  collect_function_calls stream = before ++ call :: after ->
  dispatch before ([], []) = Ok st ->
  name call = "create_suggestion" \/ name call = "insert_diagram" ->
  json_loads (arguments call) = Ok args ->
  is_object args = false ->
  review_document_with_functions stream =
    {| yielded := []; raised := Some AttributeError |}.
Proof.
  intros Hcollect Hbefore Hname Hloads Hobj.
  unfold review_document_with_functions.
  rewrite Hcollect, dispatch_app, Hbefore. cbn [Py.bind dispatch].
  assert (Hraise : on_function_call st call = Raise AttributeError).
  { unfold on_function_call. destruct st as [issues insertions].
    destruct Hname as [-> | ->]; simpl; rewrite Hloads;
      destruct args; try discriminate; reflexivity. }
  now rewrite Hraise.
Qed.

(** X8.  A diagram insertion whose anchor is present and is a number, a
    boolean or [null] ends the review cycle with [TypeError] at its log
    line, although the insertion was built; the chat cycle, which builds
    the same insertion without that log line, yields it. *)
Theorem unsliceable_anchor_review_and_chat (stream : list Delta)
        (call : FunctionCall) (args : list (string * value)) (anchor : value) :
  collect_function_calls stream = [call] ->
  name call = "insert_diagram" ->
  json_loads (arguments call) = Ok (VDict args) ->
  lookup "insert_after_text" args = Some anchor ->
  is_object anchor = false ->
  sliceable anchor = Raise TypeError ->
  exists insertion,
    diagram_insertion (VDict args) = Ok insertion /\
    review_document_with_functions stream =
      {| yielded := []; raised := Some TypeError |} /\
    chat_with_document_context stream =
      {| yielded := texts stream ++ [[Lit "DIAGRAM_INSERT:"; Dumps true insertion]];
         raised := None |}.
Proof.
  intros Hcollect Hname Hloads Hanchor _ Hslice.
  eexists. split; [reflexivity |]. split.
  - unfold review_document_with_functions. rewrite Hcollect. cbn [dispatch].
    unfold on_function_call. rewrite Hname, Hloads. cbn.
    unfold dict_get at 1. rewrite Hanchor, Hslice. reflexivity.
  - unfold chat_with_document_context. rewrite chat_fold.
    fold (run_stream stream). fold (collect_function_calls stream).
    rewrite Hcollect. cbn [app chat_dispatch].
    unfold chat_on_function_call. rewrite Hname, Hloads. reflexivity.
Qed.

(** ** The plain chat cycle *)

Lemma chat_user_deltas_step (delta : Delta) (rest : list Delta) (out : list chunk) :
  chat_user_deltas (delta :: rest) out =
  match chat_user_tool_calls
          (match tool_calls delta with Some tcs => tcs | None => [] end)
          (if str_truthy (content delta)
           then out ++ [[Lit (or_empty (content delta))]] else out) with
  | (out2, None) => chat_user_deltas rest out2
  | (out2, Some e) => {| yielded := out2; raised := Some e |}
  end.
Proof.
  cbn [chat_user_deltas]. destruct (tool_calls delta) as [[| tc tcs] |]; reflexivity.
Qed.

Lemma chat_user_tool_calls_filter (tcs : list ToolCall) (out : list chunk) :
  chat_user_tool_calls (filter names_create_diagram tcs) out
  = chat_user_tool_calls tcs out.
Proof.
  revert out. induction tcs as [| tc tcs IH]; intros out; cbn [filter].
  - reflexivity.
  - destruct (names_create_diagram tc) eqn:Hn.
    + cbn [chat_user_tool_calls].
      destruct (chat_user_on_tool_call tc) as [[text |] |]; [apply IH | apply IH | reflexivity].
    + cbn [chat_user_tool_calls].
      assert (Htc : chat_user_on_tool_call tc = Ok None)
        by (unfold chat_user_on_tool_call; now rewrite Hn).
      rewrite Htc. apply IH.
Qed.

(** X9.  The plain chat cycle keeps nothing between fragments: its
    outcome is unchanged when every fragment that is not itself named
    [create_diagram] is removed from the stream.  Argument chunks that
    arrive in nameless fragments therefore never reach it. *)
Theorem chat_with_user_ignores_continuations (stream : list Delta) :
  chat_with_user (map diagram_openings_only stream) = chat_with_user stream.
Proof.
  unfold chat_with_user. generalize (@nil chunk) as out.
  induction stream as [| delta stream IH]; intros out.
  - reflexivity.
  - cbn [map]. rewrite !chat_user_deltas_step.
    assert (Htcs : match tool_calls (diagram_openings_only delta) with
                   | Some tcs => tcs | None => [] end
                   = filter names_create_diagram
                       (match tool_calls delta with Some tcs => tcs | None => [] end)).
    { unfold diagram_openings_only. cbn [tool_calls].
      now destruct (tool_calls delta). }
    rewrite Htcs, chat_user_tool_calls_filter.
    change (content (diagram_openings_only delta)) with (content delta).
    destruct (chat_user_tool_calls _ _) as [out2 [e |]]; [reflexivity | apply IH].
Qed.

Lemma chat_user_tool_calls_incomplete (tcs : list ToolCall) (out : list chunk) :
  (forall tc, In tc tcs -> names_create_diagram tc = true ->
     exists text, function_arguments tc = Some text /\ json_loads text = Raise JSONDecodeError) ->
  chat_user_tool_calls tcs out = (out, None).
Proof.
  induction tcs as [| tc tcs IH]; intros H; cbn [chat_user_tool_calls].
  - reflexivity.
  - assert (Htc : chat_user_on_tool_call tc = Ok None).
    { unfold chat_user_on_tool_call.
      destruct (names_create_diagram tc) eqn:Hn; [| reflexivity].
      destruct (H tc (or_introl eq_refl) Hn) as [text [-> ->]]. reflexivity. }
    rewrite Htc. apply IH. intros tc' Hin. apply H. now right.
Qed.

Lemma chat_with_user_texts (stream : list Delta) :
  diagrams_incomplete stream ->
  chat_with_user stream = {| yielded := texts stream; raised := None |}.
Proof.
  unfold chat_with_user, diagrams_incomplete.
  change (texts stream) with ([] ++ texts stream). generalize (@nil chunk) as out.
  induction stream as [| delta stream IH]; intros out H.
  - cbn. now rewrite app_nil_r.
  - rewrite chat_user_deltas_step.
    rewrite chat_user_tool_calls_incomplete.
    + rewrite IH.
      * cbn [texts flat_map]. destruct (str_truthy (content delta)).
        -- now rewrite <- app_assoc.
        -- reflexivity.
      * intros tc Hin. apply H. cbn [fragments flat_map]. apply in_or_app. now right.
    + intros tc Hin. apply H. cbn [fragments flat_map]. apply in_or_app. left.
      destruct (tool_calls delta); [exact Hin | contradiction].
Qed.

(** X10.  When every fragment named [create_diagram] carries an arguments
    string (it is not absent) on which [json.loads] raises a
    [JSONDecodeError] (as when a provider streams the name first and the
    arguments in later fragments), the plain chat cycle yields the plain
    text and nothing else, and raises nothing: no diagram is rendered.
    On the same stream the chat cycle with document context, which
    collects the arguments of a slot before parsing them, yields the
    diagram block after the plain text, when the stream completes as one
    [create_diagram] invocation whose collected arguments parse to an
    object. *)
Theorem chat_with_user_renders_no_split_diagram (stream : list Delta) :
  diagrams_incomplete stream ->
  chat_with_user stream = {| yielded := texts stream; raised := None |}
  /\ forall call args,
       collect_function_calls stream = [call] ->
       name call = "create_diagram" ->
       json_loads (arguments call) = Ok (VDict args) ->
       chat_with_document_context stream =
         {| yielded := texts stream
                       ++ [mermaid_block (dict_get args "mermaid_syntax" (VStr ""))];
            raised := None |}.
Proof.
  intros H. split; [now apply chat_with_user_texts |].
  intros call args Hcollect Hname Hloads.
  unfold chat_with_document_context. rewrite chat_fold. cbn [app].
  fold (run_stream stream). fold (collect_function_calls stream).
  rewrite Hcollect. cbn [chat_dispatch]. unfold chat_on_function_call.
  rewrite Hname, Hloads. reflexivity.
Qed.

(** ** The dispatch loop of the chat cycle *)

Lemma chat_on_function_call_skipped (call : FunctionCall) :
  chat_skipped call = true -> chat_on_function_call call = Ok None.
Proof.
  unfold chat_skipped, chat_on_function_call.
  destruct (name call =? "create_diagram")%string,
           (name call =? "insert_diagram")%string,
           (json_loads (arguments call)) as [args | []]; simpl; intros H;
    try discriminate; reflexivity.
Qed.

Lemma chat_dispatch_not_skipped (calls : list FunctionCall) (out : list chunk) :
  chat_dispatch (chat_not_skipped calls) out = chat_dispatch calls out.
Proof.
  unfold chat_not_skipped.
  revert out. induction calls as [| call calls IH]; intros out; cbn [filter].
  - reflexivity.
  - destruct (chat_skipped call) eqn:Hr; cbn [negb chat_dispatch].
    + rewrite (chat_on_function_call_skipped call Hr). apply IH.
    + destruct (chat_on_function_call call) as [[text |] |];
        [apply IH | apply IH | reflexivity].
Qed.

Lemma chat_context_as_dispatch (stream : list Delta) :
  chat_with_document_context stream =
  chat_dispatch (collect_function_calls stream) (texts stream).
Proof. unfold chat_with_document_context. now rewrite chat_fold. Qed.

(** X11.  The chat cycle depends only on the plain text and on the
    invocations it does not step over: suggestions, other tools, and
    arguments of [create_diagram] or [insert_diagram] on which
    [json.loads] raises a [JSONDecodeError] leave no trace in what it
    yields or raises.  An invocation of one of these two names on which
    [json.loads] raises another exception is not stepped over: it is among
    those that have to coincide. *)
Theorem chat_depends_on_text_and_diagram_calls (stream stream' : list Delta) :
  texts stream = texts stream' ->
  chat_not_skipped (collect_function_calls stream)
  = chat_not_skipped (collect_function_calls stream') ->
  chat_with_document_context stream = chat_with_document_context stream'.
Proof.
  intros Ht Hc. rewrite !chat_context_as_dispatch.
  rewrite <- (chat_dispatch_not_skipped (collect_function_calls stream)),
          <- (chat_dispatch_not_skipped (collect_function_calls stream')).
  now rewrite Ht, Hc.
Qed.

Lemma chat_dispatch_raised (calls : list FunctionCall) (out : list chunk) :
  raised (chat_dispatch calls out) = raised (chat_dispatch calls []).
Proof.
  revert out. generalize (@nil chunk) as out0.
  induction calls as [| call calls IH]; intros out0 out; cbn [chat_dispatch].
  - reflexivity.
  - destruct (chat_on_function_call call) as [[text |] |]; [apply IH | apply IH | reflexivity].
Qed.

Lemma chat_dispatch_app (first second : list FunctionCall) (out : list chunk) :
  chat_dispatch (first ++ second) out =
  match raised (chat_dispatch first out) with
  | None => chat_dispatch second (yielded (chat_dispatch first out))
  | Some _ => chat_dispatch first out
  end.
Proof.
  revert out. induction first as [| call first IH]; intros out; cbn [app chat_dispatch].
  - reflexivity.
  - destruct (chat_on_function_call call) as [[text |] |]; [apply IH | apply IH | reflexivity].
Qed.

(** X12.  In the chat cycle, arguments that parse to anything but an
    object end the generator with [AttributeError], but what was yielded
    before stays yielded: the plain text and the chunks of the earlier
    invocations have reached the caller. *)
Theorem non_object_arguments_cut_chat_short (stream : list Delta)
        (before after : list FunctionCall) (call : FunctionCall)
        (args : value) (earlier : list chunk) :
  collect_function_calls stream = before ++ call :: after ->
  chat_dispatch before [] = {| yielded := earlier; raised := None |} ->
  name call = "create_diagram" \/ name call = "insert_diagram" ->
  json_loads (arguments call) = Ok args ->
  is_object args = false ->
  chat_with_document_context stream =
    {| yielded := texts stream ++ earlier; raised := Some AttributeError |}.
Proof.
  intros Hcollect Hbefore Hname Hloads Hobj.
  rewrite chat_context_as_dispatch, Hcollect, chat_dispatch_app.
  rewrite chat_dispatch_raised, Hbefore. cbn [raised].
  rewrite chat_dispatch_yields, Hbefore. cbn [yielded chat_dispatch].
  assert (Hraise : chat_on_function_call call = Raise AttributeError).
  { unfold chat_on_function_call.
    destruct Hname as [-> | ->]; simpl; rewrite Hloads;
      destruct args; try discriminate; reflexivity. }
  now rewrite Hraise.
Qed.

(** X24.  Only a [JSONDecodeError] is caught around [json.loads]: when it
    raises any other exception on the arguments of an invocation that a
    cycle parses, and the invocations before did not raise, the review
    cycle yields nothing and ends with that exception, so that the entries
    of the other invocations are lost; the chat cycle ends with it after
    the plain text and the chunks of the earlier invocations. *)
Theorem other_parser_exceptions_end_the_cycle (stream : list Delta)
        (before after : list FunctionCall) (call : FunctionCall) (e : exn) :
  collect_function_calls stream = before ++ call :: after ->
  json_loads (arguments call) = Raise e ->
  e <> JSONDecodeError ->
  (forall st,
      name call = "create_suggestion" \/ name call = "insert_diagram" ->
      dispatch before ([], []) = Ok st ->
      review_document_with_functions stream = {| yielded := []; raised := Some e |})
  /\ (forall earlier,
        name call = "create_diagram" \/ name call = "insert_diagram" ->
        chat_dispatch before [] = {| yielded := earlier; raised := None |} ->
        chat_with_document_context stream =
          {| yielded := texts stream ++ earlier; raised := Some e |}).
Proof.
  intros Hcollect Hloads He. split.
  - intros st Hname Hbefore. unfold review_document_with_functions.
    rewrite Hcollect, dispatch_app, Hbefore. cbn [Py.bind dispatch].
    assert (Hraise : on_function_call st call = Raise e).
    { unfold on_function_call. destruct st as [issues insertions].
      destruct Hname as [-> | ->]; simpl; rewrite Hloads;
        destruct e; try reflexivity; congruence. }
    now rewrite Hraise.
  - intros earlier Hname Hbefore.
    rewrite chat_context_as_dispatch, Hcollect, chat_dispatch_app.
    rewrite chat_dispatch_raised, Hbefore. cbn [raised].
    rewrite chat_dispatch_yields, Hbefore. cbn [yielded chat_dispatch].
    assert (Hraise : chat_on_function_call call = Raise e).
    { unfold chat_on_function_call.
      destruct Hname as [-> | ->]; simpl; rewrite Hloads;
        destruct e; try reflexivity; congruence. }
    now rewrite Hraise.
Qed.

Section EndpointProperties.

Variable rt : Runtime.

(** ** Configuration and the chat endpoint *)

Lemma get_ai_enhanced_defaults (env_key env_model : option string) :
  (str_truthy env_key = false ->
   get_ai_enhanced (OPENAI_MODEL env_model) (OPENAI_API_KEY env_key) = Raise ValueError)
  /\ (str_truthy env_key = true ->
      get_ai_enhanced (OPENAI_MODEL env_model) (OPENAI_API_KEY env_key) =
        Ok {| ai_api_key := or_empty env_key;
              ai_model := if str_truthy env_model
                          then or_empty env_model else "gpt-4o" |}).
Proof.
  unfold get_ai_enhanced, OPENAI_MODEL, OPENAI_API_KEY.
  split; intros ->; cbn [negb orb]; [reflexivity |].
  destruct (str_truthy env_model) eqn:Hm; [now rewrite Hm | reflexivity].
Qed.

(** X13.  With the module's defaults only the API key decides whether the
    service can be built: the model falls back to "gpt-4o" when the
    environment gives none, so [get_ai_enhanced] raises exactly when the
    key is missing or empty. *)
Theorem configuration_needs_only_the_key (env_key env_model : option string) :
  (get_ai_enhanced (OPENAI_MODEL env_model) (OPENAI_API_KEY env_key) = Raise ValueError
   <-> str_truthy env_key = false)
  /\ (str_truthy env_key = true ->
      get_ai_enhanced (OPENAI_MODEL env_model) (OPENAI_API_KEY env_key) =
        Ok {| ai_api_key := or_empty env_key;
              ai_model := if str_truthy env_model
                          then or_empty env_model else "gpt-4o" |}).
Proof.
  destruct (get_ai_enhanced_defaults env_key env_model) as [Hbad Hgood].
  split; [| exact Hgood]. split; [| exact Hbad].
  destruct (str_truthy env_key); [| reflexivity].
  rewrite (Hgood eq_refl). discriminate.
Qed.

Lemma startswith_empty : startswith sentinel "" = false.
Proof. reflexivity. Qed.

(** The loop of the endpoint as a filter and a decoding, when no chunk
    makes [json.loads] raise past the inner handler. *)
Lemma chat_on_chunks_ok (chunks : list string) (response_chunks : list string)
      (diagram_insertions : list value) :
  existsb breaks chunks = false ->
  chat_on_chunks chunks (response_chunks, diagram_insertions) =
  Ok (response_chunks
        ++ filter (fun s => negb (s =? "")%string && negb (startswith sentinel s)) chunks,
      diagram_insertions ++ decoded chunks).
Proof.
  revert response_chunks diagram_insertions.
  induction chunks as [| s chunks IH]; intros rc di Hb;
    cbn [chat_on_chunks filter existsb].
  - unfold decoded. cbn. now rewrite !app_nil_r.
  - apply orb_false_iff in Hb as [Hs Hrest].
    unfold decoded. cbn [flat_map]. fold (decoded chunks).
    unfold chat_on_chunk, breaks in *.
    destruct (String.eqb_spec s "") as [-> | Hne]; cbn [negb andb].
    + rewrite startswith_empty. cbn [Py.bind app]. now apply IH.
    + destruct (startswith sentinel s); cbn [negb andb] in *.
      * destruct (json_loads (drop 15 s)) as [v | []]; try discriminate;
          cbn [Py.bind]; rewrite (IH _ _ Hrest); cbn [app];
          now rewrite <- ?app_assoc.
      * cbn [Py.bind]. rewrite (IH _ _ Hrest). cbn [app]. now rewrite <- app_assoc.
Qed.

Lemma chat_on_chunk_passes (st : list string * list value) (s : string) :
  breaks s = false -> exists st', chat_on_chunk st s = Ok st'.
Proof.
  unfold breaks, chat_on_chunk. destruct st as [rc di].
  destruct (negb (s =? "")%string); [| eauto].
  destruct (startswith sentinel s); cbn [andb]; [| eauto].
  destruct (json_loads (drop 15 s)) as [v | []]; intros H; try discriminate; eauto.
Qed.

Lemma chat_on_chunk_breaks (st : list string * list value) (s : string) :
  breaks s = true -> exists e, chat_on_chunk st s = Raise e.
Proof.
  unfold breaks, chat_on_chunk. destruct st as [rc di].
  destruct (String.eqb_spec s "") as [-> | Hne].
  - rewrite startswith_empty. discriminate.
  - cbn [negb]. destruct (startswith sentinel s); cbn [andb]; [| discriminate].
    destruct (json_loads (drop 15 s)) as [v | []]; intros H; try discriminate; eauto.
Qed.

(** The loop leaves through the outer handler as soon as one chunk does. *)
Lemma chat_on_chunks_breaks (chunks : list string) (st : list string * list value) :
  existsb breaks chunks = true -> exists e, chat_on_chunks chunks st = Raise e.
Proof.
  revert st. induction chunks as [| s chunks IH]; intros st; cbn [existsb chat_on_chunks].
  - discriminate.
  - destruct (breaks s) eqn:Hs; cbn [orb].
    + intros _. destruct (chat_on_chunk_breaks st s Hs) as [e ->]. now exists e.
    + intros Hrest. destruct (chat_on_chunk_passes st s Hs) as [st' ->].
      cbn [Py.bind]. now apply IH.
Qed.

Lemma concat_all_kept (chunks : list string) :
  concat_all (filter (fun s => negb (s =? "")%string && negb (startswith sentinel s)) chunks)
  = concat_all (kept chunks).
Proof.
  unfold kept.
  induction chunks as [| s chunks IH]; cbn [filter]; [reflexivity |].
  destruct (String.eqb_spec s "") as [-> | Hne]; cbn [negb andb].
  - cbn. exact IH.
  - destruct (startswith sentinel s); cbn [negb]; [exact IH |].
    unfold concat_all in *. cbn [fold_right]. now rewrite IH.
Qed.

(** X14.  The chat endpoint answers with an HTTP error exactly when the
    API key is missing or empty, or the generator ended with an exception
    (while the request was built or in the chat cycle), or one of the
    yielded strings begins with "DIAGRAM_INSERT:" and [json.loads] raises
    on what follows something else than a [JSONDecodeError]; the status is
    always 500. *)
Theorem chat_endpoint_fails_exactly_on_exceptions
        (env_key env_model : option string) (request : ChatRequest)
        (stream : list Delta) :
  ((exists status detail,
       chat_with_ai rt env_key env_model request stream = HTTPException status detail)
   <-> (str_truthy env_key = false
        \/ raised (chat_context_generator rt (message_dicts request)
                      (current_document_content request) stream) <> None
        \/ existsb breaks
             (map (render rt)
                  (yielded (chat_context_generator rt (message_dicts request)
                              (current_document_content request) stream))) = true))
  /\ (forall status detail,
       chat_with_ai rt env_key env_model request stream = HTTPException status detail ->
       status = 500).
Proof.
  unfold chat_with_ai.
  destruct (get_ai_enhanced_defaults env_key env_model) as [Hbad Hgood].
  destruct (str_truthy env_key) eqn:Hk.
  - rewrite (Hgood eq_refl). unfold chat_reply.
    set (g := chat_context_generator rt _ _ stream).
    destruct (existsb breaks (map (render rt) (yielded g))) eqn:Hb.
    + destruct (chat_on_chunks_breaks _ ([], []) Hb) as [e ->]. split.
      * split; [intros _; right; now right | intros _; eauto].
      * intros status detail H. now injection H as <- _.
    + rewrite (chat_on_chunks_ok _ _ _ Hb).
      destruct (raised g) as [e |]; split.
      * split; [intros _; right; left; discriminate | intros _; eauto].
      * intros status detail H. now injection H as <- _.
      * split; [intros [status [detail H]]; discriminate
               | intros [H | [H | H]]; congruence].
      * intros status detail H. discriminate.
  - rewrite (Hbad eq_refl). split.
    + split; [intros _; now left | intros _; eauto].
    + intros status detail H. now injection H as <- _.
Qed.

(** X15.  When the key is set, the generator ended without an exception
    having yielded [cs], and no yielded string makes [json.loads] raise
    past the inner handler, the endpoint returns an object whose
    [response] is the concatenation, in order, of the yielded strings that
    do not begin with "DIAGRAM_INSERT:", and whose [diagram_insertions],
    present only when not empty, lists what [json.loads] returned for the
    tails of the strings that do.  A string that begins with the marker,
    plain text of the model included, never reaches the response: its tail
    is decoded as an insertion, or it is dropped on a [JSONDecodeError]. *)
Theorem chat_response_excludes_marked_chunks
        (env_key env_model : option string) (request : ChatRequest)
        (stream : list Delta) (cs : list chunk) :
  str_truthy env_key = true ->
  chat_context_generator rt (message_dicts request)
    (current_document_content request) stream = {| yielded := cs; raised := None |} ->
  existsb breaks (map (render rt) cs) = false ->
  chat_with_ai rt env_key env_model request stream =
    Returned
      (VDict (("response", VStr (concat_all (kept (map (render rt) cs))))
              :: match decoded (map (render rt) cs) with
                 | [] => []
                 | _ :: _ => [("diagram_insertions", VList (decoded (map (render rt) cs)))]
                 end)).
Proof.
  intros Hk Hg Hb. unfold chat_with_ai.
  rewrite (proj2 (get_ai_enhanced_defaults env_key env_model) Hk).
  unfold chat_reply. rewrite Hg. cbn [yielded raised].
  rewrite (chat_on_chunks_ok _ _ _ Hb). cbn [app].
  unfold chat_result. cbn [fst snd]. now rewrite concat_all_kept.
Qed.

Lemma startswith_sentinel (rest : string) :
  startswith sentinel (sentinel ++ rest) = true.
Proof.
  unfold startswith, sentinel. cbn [String.append String.prefix].
  repeat (match goal with
          | |- context [Ascii.ascii_dec ?a ?a] =>
              destruct (Ascii.ascii_dec a a) as [_ | Hne]; [| now elim Hne]
          end).
  now destruct rest.
Qed.

Lemma drop_sentinel (rest : string) : drop 15 (sentinel ++ rest) = rest.
Proof. reflexivity. Qed.

Lemma texts_are_literals (stream : list Delta) :
  Forall (fun c => exists s, c = [Lit s] /\ s <> "") (texts stream).
Proof.
  induction stream as [| delta stream IH]; cbn [texts flat_map].
  - constructor.
  - fold (texts stream). apply Forall_app. split; [| exact IH].
    destruct (content delta) as [s |]; cbn [str_truthy]; [| constructor].
    destruct (String.eqb_spec s ""); cbn [negb]; constructor; [| constructor].
    exists s. split; [reflexivity | assumption].
Qed.

(** What the final loop of the chat cycle yields: diagram blocks and
    insertion commands. *)
Lemma chat_dispatch_chunks (calls : list FunctionCall) :
  Forall (fun c => (exists body, c = mermaid_block body)
                   \/ (exists v, c = [Lit sentinel; Dumps true v]))
         (yielded (chat_dispatch calls [])).
Proof.
  induction calls as [| call calls IH]; cbn [chat_dispatch].
  - constructor.
  - destruct (chat_on_function_call call) as [[text |] |] eqn:Hcall.
    + rewrite chat_dispatch_yields. apply Forall_app. split; [| exact IH].
      constructor; [| constructor].
      unfold chat_on_function_call in Hcall.
      destruct (name call =? "create_diagram")%string.
      * destruct (json_loads (arguments call)) as [args | []]; try discriminate.
        destruct (get args "mermaid_syntax" (VStr "")) as [body |]; [| discriminate].
        injection Hcall as <-. left. now exists body.
      * destruct (name call =? "insert_diagram")%string; [| discriminate].
        destruct (json_loads (arguments call)) as [args | []]; try discriminate.
        destruct (diagram_insertion args) as [insertion |]; [| discriminate].
        injection Hcall as <-. right. now exists insertion.
    + exact IH.
    + constructor.
Qed.

(** A chunk the endpoint handles as intended: a command whose payload
    survives the round trip through [json.dumps] and [json.loads], or a
    non-empty chunk that does not begin with the marker. *)
Lemma chunks_classified (cs : list chunk) (response_chunks : list string)
      (diagram_insertions : list value) :
  Forall (fun c => match command_payload c with
                   | Some v => render rt c = (sentinel ++ json_dumps rt true v)%string
                               /\ json_loads (json_dumps rt true v) = Ok v
                   | None => render rt c <> "" /\ startswith sentinel (render rt c) = false
                   end) cs ->
  chat_on_chunks (map (render rt) cs) (response_chunks, diagram_insertions) =
  Ok (response_chunks ++ map (render rt) (displayed cs), diagram_insertions ++ payloads cs).
Proof.
  revert response_chunks diagram_insertions.
  induction cs as [| c cs IH]; intros rc di H; cbn [map chat_on_chunks].
  - unfold displayed, payloads. cbn. now rewrite !app_nil_r.
  - inversion H as [| ? ? Hc Hcs]; subst.
    unfold displayed, payloads. cbn [filter flat_map].
    fold (displayed cs). fold (payloads cs).
    unfold chat_on_chunk.
    destruct (command_payload c) as [v |].
    + destruct Hc as [Hrender Hround]. rewrite Hrender, startswith_sentinel, drop_sentinel, Hround.
      assert (Hne : ((sentinel ++ json_dumps rt true v) =? "")%string = false) by reflexivity.
      rewrite Hne. cbn [negb Py.bind]. rewrite (IH _ _ Hcs). cbn [app]. now rewrite <- app_assoc.
    + destruct Hc as [Hne Hsw]. apply String.eqb_neq in Hne. rewrite Hne, Hsw.
      cbn [negb Py.bind]. rewrite (IH _ _ Hcs). cbn [map app]. now rewrite <- app_assoc.
Qed.

Lemma payloads_app (xs ys : list chunk) : payloads (xs ++ ys) = payloads xs ++ payloads ys.
Proof. unfold payloads. apply flat_map_app. Qed.

Lemma displayed_app (xs ys : list chunk) : displayed (xs ++ ys) = displayed xs ++ displayed ys.
Proof. unfold displayed. apply filter_app. Qed.

Lemma texts_displayed (stream : list Delta) :
  displayed (texts stream) = texts stream /\ payloads (texts stream) = [].
Proof.
  pose proof (texts_are_literals stream) as H.
  induction H as [| c cs [s [-> Hs]] _ [IH1 IH2]].
  - split; reflexivity.
  - split.
    + unfold displayed in *. cbn [filter command_payload]. now rewrite IH1.
    + unfold payloads in *. cbn [flat_map command_payload app]. exact IH2.
Qed.

(** X16.  From the request and the stream to the reply of the chat
    endpoint: when the key is set, the request could be built, the chat
    cycle did not raise, no plain-text fragment begins with the marker and
    the insertions survive the round trip through [json.dumps] and
    [json.loads], the endpoint returns an object whose [response] is the
    plain text followed by the diagram blocks, and whose
    [diagram_insertions] holds the insertions in order; that member is
    left out when there is none, and the object then has the [response]
    alone. *)
Theorem chat_endpoint_end_to_end (env_key env_model : option string)
        (request : ChatRequest) (stream : list Delta) (enhanced : list Message) :
  str_truthy env_key = true ->
  enhanced_messages rt (message_dicts request) (current_document_content request)
    = Ok enhanced ->
  raised (chat_with_document_context stream) = None ->
  no_sentinel_text stream ->
  Forall (fun v => json_loads (json_dumps rt true v) = Ok v)
         (payloads (yielded (chat_dispatch (collect_function_calls stream) []))) ->
  chat_with_ai rt env_key env_model request stream =
    Returned
      (VDict
         (("response",
           VStr (concat_all
                   (map (render rt)
                        (texts stream
                         ++ displayed (yielded (chat_dispatch
                                                  (collect_function_calls stream) []))))))
          :: match payloads (yielded (chat_dispatch (collect_function_calls stream) [])) with
             | [] => []
             | _ :: _ =>
                 [("diagram_insertions",
                   VList (payloads (yielded (chat_dispatch
                                               (collect_function_calls stream) []))))]
             end)).
Proof.
  intros Hk Hrequest Hr Htext Hround. unfold chat_with_ai.
  rewrite (proj2 (get_ai_enhanced_defaults env_key env_model) Hk).
  unfold chat_reply, chat_context_generator. rewrite Hrequest, Hr.
  rewrite chat_context_as_dispatch, chat_dispatch_yields.
  set (ys := yielded (chat_dispatch (collect_function_calls stream) [])) in *.
  rewrite chunks_classified.
  - destruct (texts_displayed stream) as [Hd Hp].
    rewrite displayed_app, payloads_app, Hd, Hp. reflexivity.
  - apply Forall_app. split.
    + pose proof (texts_are_literals stream) as Hlit.
      rewrite Forall_forall in *. intros c Hin.
      destruct (Hlit c Hin) as [s [-> Hs]]. cbn [command_payload].
      unfold render. cbn. rewrite append_empty_r. split; [exact Hs |].
      apply Htext. exact Hin.
    + pose proof (chat_dispatch_chunks (collect_function_calls stream)) as Hshape.
      fold ys in Hshape. clearbody ys.
      induction Hshape as [| c cs Hc _ IH]; [constructor |].
      unfold payloads in Hround. cbn [flat_map] in Hround. fold (payloads cs) in Hround.
      apply Forall_app in Hround as [Hc_round Hcs_round].
      constructor; [| exact (IH Hcs_round)].
      destruct Hc as [[body ->] | [v ->]].
      * cbn [command_payload mermaid_block]. split; [| reflexivity]. discriminate.
      * cbn [command_payload]. unfold sentinel at 1. cbn [String.eqb Ascii.eqb Bool.eqb].
        cbn [command_payload] in Hc_round.
        unfold sentinel in Hc_round at 1. cbn in Hc_round.
        split.
        -- unfold render. cbn. now rewrite append_empty_r.
        -- now inversion Hc_round.
Qed.

(** ** The request of the chat cycle *)

Lemma map_removelast_last {A B} (f : A -> B) (l : list A) (d : A) :
  l <> [] -> map f (removelast l) ++ [f (last l d)] = map f l.
Proof.
  intros Hne. rewrite (app_removelast_last d Hne) at 3.
  now rewrite map_app.
Qed.

(** X17.  The message list sent to the model keeps the conversation: for a
    non-empty history it is one system message followed by the history,
    with every content in place and in order, and with the last message
    sent under the role "user" whatever its role was; for an empty history
    nothing is sent, not even the system message. *)
Theorem enhanced_messages_keep_the_conversation
        (messages : list Message) (document_content : string)
        (enhanced : list Message) :
  enhanced_messages rt messages document_content = Ok enhanced ->
  (messages = [] -> enhanced = [])
  /\ (messages <> [] ->
      List.length enhanced = S (List.length messages)
      /\ message_get (hd [] enhanced) "role" "" = "system"
      /\ map (fun m => message_get m "content" "") (tl enhanced)
         = map (fun m => message_get m "content" "") messages
      /\ removelast (tl enhanced) = removelast messages
      /\ message_get (last enhanced []) "role" "" = "user").
Proof.
  unfold enhanced_messages. intros H.
  destruct (if negb (strip rt document_content =? "")%string
            then html_to_plain_text rt document_content else Ok ""%string)
    as [plain_text_content |]; [| discriminate].
  cbn [Py.bind] in H. split.
  - intros ->. now injection H as <-.
  - intros Hne. destruct messages as [| m messages]; [congruence |].
    remember (m :: messages) as ms eqn:Hms. clear Hms m messages.
    injection H as <-.
    pose proof (app_removelast_last [] Hne) as Hl.
    repeat split.
    + cbn [List.length]. rewrite length_app. cbn [List.length].
      apply (f_equal (@List.length Message)) in Hl. rewrite length_app in Hl.
      exact (eq_sym (f_equal S Hl)).
    + cbn [tl]. rewrite map_app. cbn [map message_get String.eqb Ascii.eqb Bool.eqb].
      now apply (map_removelast_last (fun m0 => message_get m0 "content" "")).
    + cbn [tl]. now rewrite removelast_last.
    + rewrite app_comm_cons, last_last. reflexivity.
Qed.

(** ** The review channel *)

Lemma full_response_of_single (s : string) :
  concat_all (filter (fun s => negb (s =? "")%string) [s]) = s.
Proof.
  cbn [filter]. destruct (String.eqb_spec s "") as [-> | Hne]; cbn.
  - reflexivity.
  - apply append_empty_r.
Qed.

Lemma frame_type_frame (tick : nat) (type : string) (fields : list (string * value)) :
  frame_type (frame rt tick type fields) = type.
Proof. reflexivity. Qed.

(** A turn whose response survives the round trip sends two messages. *)
Lemma review_cycle_round_trip (tick : nat) (html_content : string)
      (stream : list Delta) :
  response_round_trip rt (html_content, stream) ->
  exists reply,
    review_cycle rt tick html_content stream =
      [frame rt tick "processing_start" [("message", VStr "正在分析文档...")]; reply]
    /\ frame_type reply = outcome rt (html_content, stream).
Proof.
  intros Hround.
  unfold review_cycle, outcome, review_document_with_functions, respond. cbn [fst snd].
  destruct (html_to_plain_text rt html_content) as [plain_text | e];
    [| eexists; split; reflexivity].
  destruct (validate_text_for_ai rt plain_text) as [[[|] error_message] | e];
    cbn [negb]; [| eexists; split; reflexivity | eexists; split; reflexivity].
  destruct (dispatch (collect_function_calls stream) ([], [])) as [st | e] eqn:Hd;
    cbn [raised yielded].
  - cbn [map]. rewrite full_response_of_single.
    unfold render. cbn [map render_piece concat_all fold_right].
    rewrite append_empty_r, (Hround st Hd). cbn.
    eexists. split; reflexivity.
  - eexists. split; reflexivity.
Qed.

Lemma serve_round_trip (cycles : list (string * list Delta)) (tick : nat) :
  Forall (response_round_trip rt) cycles ->
  map frame_type (serve rt tick cycles) =
  flat_map (fun cycle => ["processing_start"; outcome rt cycle])%string cycles.
Proof.
  intros H. revert tick.
  induction H as [| [html_content stream] cycles Hc _ IH]; intros tick; cbn [serve flat_map].
  - reflexivity.
  - destruct (review_cycle_round_trip tick html_content stream Hc) as [reply [-> Htype]].
    rewrite map_app, IH. cbn [map app]. now rewrite Htype.
Qed.

(** X18.  On the review channel, when [json.loads] gives back the response
    that [json.dumps] serialized, every text received is answered by
    [processing_start] and then by exactly one message: [validation_error]
    when the text is rejected, [ai_suggestions] carrying the response when
    the review cycle ended, [ai_error] when anything raised.  Without an
    API key the only message is an [ai_error], and the socket is closed.
    For an accepted text whose review ended, the two messages are spelled
    out member by member: the [data] of [ai_suggestions] is the object
    with the [issues] and the [diagram_insertions] of the dispatch loop. *)
Theorem one_reply_per_document (env_key env_model : option string)
        (cycles : list (string * list Delta)) :
  Forall (response_round_trip rt) cycles ->
  (str_truthy env_key = true ->
   map event_type (websocket_enhanced_endpoint rt env_key env_model cycles) =
     ("connection_success"
      :: flat_map (fun cycle => ["processing_start"; outcome rt cycle]) cycles)%string)
  /\ (str_truthy env_key = false ->
      map event_type (websocket_enhanced_endpoint rt env_key env_model cycles) =
        ["ai_error"; "close"]%string)
  /\ (forall tick html_content stream plain_text message st,
        In (html_content, stream) cycles ->
        html_to_plain_text rt html_content = Ok plain_text ->
        validate_text_for_ai rt plain_text = Ok (true, message) ->
        dispatch (collect_function_calls stream) ([], []) = Ok st ->
        review_cycle rt tick html_content stream =
          [frame rt tick "processing_start" [("message", VStr "正在分析文档...")];
           frame rt (S tick) "ai_suggestions" [("data", response st)]])
  /\ (forall tick html_content stream plain_text message st,
        In (html_content, stream) cycles ->
        html_to_plain_text rt html_content = Ok plain_text ->
        validate_text_for_ai rt plain_text = Ok (true, message) ->
        dispatch (collect_function_calls stream) ([], []) = Ok st ->
        review_cycle rt tick html_content stream =
          [[Dumps true (VDict [("type", VStr "processing_start");
                               ("message", VStr "正在分析文档...");
                               ("timestamp", VStr (utcnow rt tick))])];
           [Dumps true (VDict [("type", VStr "ai_suggestions");
                               ("data", VDict [("issues", VList (fst st));
                                               ("diagram_insertions", VList (snd st))]);
                               ("timestamp", VStr (utcnow rt (S tick)))])]]).
Proof.
  intros Hround. unfold websocket_enhanced_endpoint.
  destruct (get_ai_enhanced_defaults env_key env_model) as [Hbad Hgood].
  assert (Hcycle : forall tick html_content stream plain_text message st,
        In (html_content, stream) cycles ->
        html_to_plain_text rt html_content = Ok plain_text ->
        validate_text_for_ai rt plain_text = Ok (true, message) ->
        dispatch (collect_function_calls stream) ([], []) = Ok st ->
        review_cycle rt tick html_content stream =
          [frame rt tick "processing_start" [("message", VStr "正在分析文档...")];
           frame rt (S tick) "ai_suggestions" [("data", response st)]]).
  { intros tick html_content stream plain_text message st Hin Hplain Hvalid Hd.
    rewrite Forall_forall in Hround. specialize (Hround _ Hin st Hd).
    unfold review_cycle. rewrite Hplain, Hvalid. cbn [negb].
    unfold review_document_with_functions, respond. rewrite Hd. cbn [raised yielded map].
    rewrite full_response_of_single.
    unfold render. cbn [map render_piece concat_all fold_right].
    rewrite append_empty_r, Hround. reflexivity. }
  split; [| split; [| split]].
  - intros Hk. rewrite (Hgood Hk). cbn [map event_type].
    rewrite map_map. f_equal.
    change (fun x => event_type (Sent x)) with frame_type.
    now apply serve_round_trip.
  - intros Hk. now rewrite (Hbad Hk).
  - exact Hcycle.
  - intros tick html_content stream plain_text message st Hin Hplain Hvalid Hd.
    rewrite (Hcycle tick html_content stream plain_text message st Hin Hplain Hvalid Hd).
    reflexivity.
Qed.

(** X21.  Whatever the parser and the stream, a text received on the
    review channel is always answered: after [processing_start] comes one
    message, a [validation_error], an [ai_error], a [parsing_error] or an
    [ai_suggestions]; a second one follows only as an [ai_error] after
    [ai_suggestions], when the log line on the parsed result raises. *)
Theorem every_document_is_answered (tick : nat) (html_content : string)
        (stream : list Delta) :
  exists replies,
    review_cycle rt tick html_content stream =
      frame rt tick "processing_start" [("message", VStr "正在分析文档...")] :: replies
    /\ (map frame_type replies = ["validation_error"]
        \/ map frame_type replies = ["ai_error"]
        \/ map frame_type replies = ["parsing_error"]
        \/ map frame_type replies = ["ai_suggestions"]
        \/ map frame_type replies = ["ai_suggestions"; "ai_error"])%string.
Proof.
  unfold review_cycle. eexists. split; [reflexivity |].
  destruct (html_to_plain_text rt html_content) as [plain_text | e]; [| now right; left].
  destruct (validate_text_for_ai rt plain_text) as [[[|] error_message] | e];
    cbn [negb]; [| now left | now right; left].
  destruct (raised (review_document_with_functions stream)) as [e |]; [now right; left |].
  destruct (json_loads _) as [parsed_result | []];
    try (now right; left); [| now right; right; left].
  destruct (issues <- get parsed_result "issues" (VList []) ;; sized issues) as [u | e].
  - right; right; right; left. reflexivity.
  - right; right; right; right. reflexivity.
Qed.

End EndpointProperties.

(** ** How many entries the dispatch loop makes *)

Lemma on_function_call_counts (call : FunctionCall) (issues insertions : list value) :
  on_function_call ([], []) call = Ok (issues, insertions) ->
  (List.length issues <= List.length (named_calls "create_suggestion" [call]))%nat
  /\ List.length insertions
     = List.length (filter relevant (named_calls "insert_diagram" [call])).
Proof.
  unfold on_function_call, named_calls, relevant. cbn [filter].
  destruct (name call =? "create_suggestion")%string eqn:Hs.
  - assert (Hi : (name call =? "insert_diagram")%string = false).
    { apply String.eqb_eq in Hs. now rewrite Hs. }
    rewrite Hi. cbn [List.length filter].
    destruct (json_loads (arguments call)) as [args | []].
    + destruct (create_suggestion args) as [[issue |] |]; cbn [Py.bind]; intros H;
        try discriminate; injection H as <- <-; rewrite ?Hs, ?Hi; cbn; lia.
    + discriminate.
    + discriminate.
    + discriminate.
    + intros H. injection H as <- <-. rewrite ?Hs, ?Hi. cbn. lia.
    + discriminate.
  - destruct (name call =? "insert_diagram")%string eqn:Hi; cbn [orb andb filter].
    + destruct (json_loads (arguments call)) as [args | []]; cbn [List.length];
        try discriminate.
      * destruct (diagram_insertion args) as [insertion |]; cbn [Py.bind]; [| discriminate].
        destruct (get args "insert_after_text" (VStr "")) as [anchor |]; cbn [Py.bind];
          [| discriminate].
        destruct (sliceable anchor); cbn [Py.bind]; [| discriminate].
        intros H. injection H as <- <-. rewrite ?Hs, ?Hi. cbn. lia.
      * intros H. injection H as <- <-. rewrite ?Hs, ?Hi. cbn. lia.
    + intros H. injection H as <- <-. rewrite ?Hs, ?Hi. cbn. lia.
Qed.

(** X19.  When the dispatch loop ends without raising, every
    [insert_diagram] invocation whose arguments parse has given exactly one
    diagram insertion, and the suggestions number at most the
    [create_suggestion] invocations: no invocation gives two entries, and
    no other invocation gives any. *)
Theorem dispatch_counts (calls : list FunctionCall) (issues insertions : list value) :
  dispatch calls ([], []) = Ok (issues, insertions) ->
  (List.length issues <= List.length (named_calls "create_suggestion" calls))%nat
  /\ List.length insertions
     = List.length (filter relevant (named_calls "insert_diagram" calls)).
Proof.
  revert issues insertions.
  induction calls as [| call calls IH]; intros issues insertions H.
  - injection H as <- <-. split; reflexivity.
  - cbn [dispatch] in H.
    destruct (on_function_call ([], []) call) as [[issues1 insertions1] |] eqn:Hcall;
      [| discriminate].
    cbn [Py.bind] in H. rewrite dispatch_shift in H.
    destruct (dispatch calls ([], [])) as [[issues2 insertions2] |] eqn:Hrest;
      [| discriminate].
    injection H as <- <-.
    destruct (on_function_call_counts _ _ _ Hcall) as [Hi1 Hd1].
    destruct (IH _ _ eq_refl) as [Hi2 Hd2].
    change (call :: calls) with ([call] ++ calls).
    unfold named_calls in *. rewrite !filter_app, !length_app. lia.
Qed.

(** ** Chunking does not matter *)

Lemma fresh_from_distinct (seen : list Z) (frs : list ToolCall) :
  NoDup (map index frs) ->
  (forall tc, In tc frs -> ~ In (index tc) seen) ->
  fresh_from seen frs = true.
Proof.
  revert seen. induction frs as [| tc frs IH]; intros seen Hnd Hseen; cbn [fresh_from].
  - reflexivity.
  - cbn [map] in Hnd. inversion Hnd as [| ? ? Hnin Hnd']; subst.
    apply andb_true_intro. split.
    + destruct (named tc); [| reflexivity].
      apply negb_true_iff, mem_false_iff. apply Hseen. now left.
    + apply IH; [exact Hnd' |].
      intros tc' Hin [Heq | Hin'].
      * apply Hnin. rewrite Heq. now apply in_map.
      * apply (Hseen tc'); [now right | exact Hin'].
Qed.

Lemma chunks_for_single (frs : list ToolCall) (tc : ToolCall) :
  NoDup (map index frs) ->
  In tc frs ->
  chunks_for (index tc) frs = or_empty (function_arguments tc).
Proof.
  induction frs as [| a frs IH]; intros Hnd Hin; [contradiction |].
  cbn [map] in Hnd. inversion Hnd as [| ? ? Hnin Hnd']; subst.
  change (a :: frs) with ([a] ++ frs). unfold chunks_for.
  rewrite filter_app, map_app, concat_all_app. fold (chunks_for (index tc) frs).
  destruct Hin as [-> | Hin].
  - cbn [filter]. rewrite Z.eqb_refl. cbn.
    rewrite (chunks_for_unused (index tc) frs Hnin). now rewrite !append_empty_r.
  - assert (Hne : index a <> index tc).
    { intros Heq. apply Hnin. rewrite Heq. now apply in_map. }
    cbn [filter]. destruct (Z.eqb_spec (index a) (index tc)); [contradiction |].
    cbn. now apply IH.
Qed.

Lemma collect_fresh (stream : list Delta) :
  fresh_slots (fragments stream) = true ->
  collect_function_calls stream =
    map (completed_for (fragments stream)) (filter named (fragments stream))
  /\ NoDup (map index (filter named (fragments stream))).
Proof.
  intros Hfresh. destruct (fresh_run _ Hfresh) as [Hrun Hnd].
  split; [| exact Hnd].
  unfold collect_function_calls, flush. rewrite run_stream_fragments, Hrun.
  unfold Slots.values. cbn [fst snd app]. now rewrite map_map.
Qed.

Lemma delivered_whole_index (frs : list ToolCall) :
  map index (delivered_whole frs) = map index (filter named frs).
Proof. unfold delivered_whole. rewrite map_map. reflexivity. Qed.

Lemma delivered_whole_named (frs : list ToolCall) :
  filter named (delivered_whole frs) = delivered_whole frs.
Proof.
  unfold delivered_whole.
  assert (H : forall l, Forall (fun tc => named tc = true) l ->
    filter named (map (fun tc => mkToolCall (index tc) (function_name tc)
                                            (Some (chunks_for (index tc) frs))) l)
    = map (fun tc => mkToolCall (index tc) (function_name tc)
                                (Some (chunks_for (index tc) frs))) l).
  { induction 1 as [| tc l Hn _ IH]; cbn [map filter]; [reflexivity |].
    unfold named at 1. cbn [function_name]. fold (named tc). now rewrite Hn, IH. }
  apply H. apply Forall_forall. intros tc Hin. now apply filter_In in Hin.
Qed.

(** X20.  Without slot reuse only the concatenation per slot matters: the
    stream that delivers every invocation whole, in one fragment with all
    the chunks of its slot, completes the same invocations in the same
    order, so that the review and chat cycles cannot tell how the
    arguments were split. *)
Theorem whole_delivery_collects_the_same (stream : list Delta) :
  fresh_slots (fragments stream) = true ->
  collect_function_calls (as_stream (delivered_whole (fragments stream)))
  = collect_function_calls stream
  /\ review_document_with_functions (as_stream (delivered_whole (fragments stream)))
     = review_document_with_functions stream.
Proof.
  intros Hfresh.
  assert (Hsame : collect_function_calls (as_stream (delivered_whole (fragments stream)))
                  = collect_function_calls stream).
  { destruct (collect_fresh stream Hfresh) as [Hcollect Hnd].
    set (frs := fragments stream) in *.
    assert (Hfr : fragments (as_stream (delivered_whole frs)) = delivered_whole frs).
    { unfold as_stream, fragments. cbn. apply app_nil_r. }
    assert (Hndw : NoDup (map index (delivered_whole frs))).
    { now rewrite delivered_whole_index. }
    destruct (collect_fresh (as_stream (delivered_whole frs))) as [Hwhole _].
    { rewrite Hfr. unfold fresh_slots. apply fresh_from_distinct; [exact Hndw |].
      intros tc _ []. }
    rewrite Hwhole, Hfr, delivered_whole_named, Hcollect.
    unfold delivered_whole at 2. rewrite map_map. apply map_ext_in.
    intros tc Hin. unfold completed_for. cbn [index function_name]. f_equal.
    set (w := mkToolCall (index tc) (function_name tc) (Some (chunks_for (index tc) frs))).
    change (index tc) with (index w) at 1.
    rewrite (chunks_for_single (delivered_whole frs) w Hndw); [reflexivity |].
    unfold delivered_whole. apply in_map_iff. now exists tc. }
  split; [exact Hsame |].
  unfold review_document_with_functions. now rewrite Hsame.
Qed.

End Cycle.

(** ** The development on concrete streams *)

Lemma slot_reuse_on_sample :
  on_tool_call (fold_left on_tool_call (reuse_opening :: reuse_between) ([], []))
               reuse_fragment =
    ([reuse_previous],
     [(0, {| name := "insert_diagram"; arguments := "" |});
      (1, {| name := "insert_diagram"; arguments := "[" |})])
  /\ (exists later,
        collect_function_calls interleaved_reuse_stream = reuse_previous :: later)
  /\ collect_function_calls interleaved_reuse_stream =
       [reuse_previous;
        {| name := "insert_diagram"; arguments := "" |};
        {| name := "insert_diagram"; arguments := "[]" |}]
  /\ collect_function_calls reuse_stream =
       [{| name := "create_suggestion"; arguments := "x" |};
        {| name := "insert_diagram"; arguments := "y" |}].
Proof.
  destruct (slot_reuse_finalizes_previous
              [] reuse_between reuse_opening reuse_fragment
              "create_suggestion" "insert_diagram")
    as [_ [_ [Hstep [_ [_ [Hlater Hstream]]]]]].
  - reflexivity.
  - reflexivity.
  - reflexivity.
  - intros tc [<- | [<- | [<- | []]]] Hslot; try reflexivity; discriminate.
  - discriminate.
  - discriminate.
  - split; [exact Hstep | split; [| split]].
    + exact (Hlater interleaved_reuse_stream [mkToolCall 1 None (Some "]")] eq_refl).
    + reflexivity.
    + apply Hstream. reflexivity.
Defined.

Lemma interleaved_slots_on_sample :
  fresh_slots (fragments interleaved_stream) = true
  /\ collect_function_calls interleaved_stream =
       [{| name := "create_suggestion"; arguments := "{}" |};
        {| name := "insert_diagram"; arguments := "[]" |}].
Proof.
  split; [reflexivity |].
  exact (proj1 (one_invocation_per_opened_slot interleaved_stream eq_refl)).
Defined.

(** C2 as stated fails: the slot of a stray nameless fragment is a distinct
    slot of the stream, and no invocation is completed for it. *)
Lemma orphan_slot_completes_nothing :
  fresh_slots orphan_fragment = true
  /\ collect_function_calls [mkDelta None (Some orphan_fragment)] = []
  /\ ~ one_per_slot orphan_fragment
         (collect_function_calls [mkDelta None (Some orphan_fragment)]).
Proof.
  split; [reflexivity | split; [reflexivity |]].
  intros [slots [_ [Hall Hcalls]]]. cbn in Hcalls.
  inversion Hcalls; subst. apply (proj2 (Hall 0)). now left.
Qed.

(** C3 as stated fails: slot 1, opened first, is flushed before slot 0. *)
Lemma descending_stream_not_ascending :
  Slots.keys (snd (run_stream descending_stream)) = [1; 0]
  /\ collect_function_calls descending_stream =
       [{| name := "create_suggestion"; arguments := "{}" |};
        {| name := "insert_diagram"; arguments := "{}" |}]
  /\ ~ ascending_flush descending_stream.
Proof.
  split; [reflexivity | split; [reflexivity |]].
  unfold ascending_flush. cbn. intros Hsorted.
  inversion Hsorted as [| ? ? _ Hall]; subst.
  inversion Hall as [| ? ? Hlt _]; subst. lia.
Qed.

(** C8 as stated fails for the review cycle: the text is not yielded. *)
Lemma review_drops_plain_text :
  texts text_only_stream = [[Lit "Reviewing the claims."]]
  /\ yielded (review_document_with_functions Json.loads text_only_stream) =
       [[Dumps false (VDict [("issues", VList []); ("diagram_insertions", VList [])])]]
  /\ ~ texts_forwarded text_only_stream
         (review_document_with_functions Json.loads text_only_stream).
Proof.
  split; [reflexivity | split; [reflexivity |]].
  intros Hfwd. specialize (Hfwd [Lit "Reviewing the claims."] (or_introl eq_refl)).
  cbn in Hfwd. destruct Hfwd as [Heq | []]. discriminate.
Qed.

Lemma graded_severity_on_sample :
  Json.loads (suggestion_text graded_issues) = Ok (VDict (suggestion_args graded_issues))
  /\ (exists entry,
        create_suggestion (VDict (suggestion_args graded_issues)) = Ok (Some (VDict entry))
        /\ lookup "severity" entry = Some (VStr "high"))
  /\ (exists entry,
        create_suggestion (VDict (suggestion_args paired_issues)) = Ok (Some (VDict entry))
        /\ lookup "severity" entry = Some (VStr "medium")).
Proof.
  split; [vm_compute; reflexivity | split].
  - destruct (merged_severity_stable_argmax
                (suggestion_args graded_issues) (map issue_value graded_issues)
                graded_issues)
      as [entry [before [top [after [Hcreate [_ [_ [_ [_ [Hhigh _]]]]]]]]]].
    + discriminate.
    + reflexivity.
    + repeat constructor; apply represents_issue_value.
    + exists entry. split; [exact Hcreate | apply Hhigh; reflexivity].
  - destruct (merged_severity_stable_argmax
                (suggestion_args paired_issues) (map issue_value paired_issues)
                paired_issues)
      as [entry [before [top [after [Hcreate [_ [_ [_ [_ [_ Hmedium]]]]]]]]]].
    + discriminate.
    + reflexivity.
    + repeat constructor; apply represents_issue_value.
    + exists entry. split; [exact Hcreate | apply Hmedium; reflexivity].
Defined.

Lemma joined_fields_on_sample :
  Json.loads (suggestion_text paired_issues) = Ok (VDict (suggestion_args paired_issues))
  /\ exists entry,
       create_suggestion (VDict (suggestion_args paired_issues)) = Ok (Some (VDict entry))
       /\ lookup "type" entry = Some (VStr "Structure & Punctuation")
       /\ lookup "description" entry = Some (VStr "preamble missing | missing period").
Proof.
  split; [vm_compute; reflexivity |].
  destruct (merged_fields_join_in_input_order
              (suggestion_args paired_issues) (map issue_value paired_issues)
              paired_issues)
    as [entry [Hcreate [_ [_ [Htype Hdesc]]]]].
  - discriminate.
  - reflexivity.
  - repeat constructor; apply represents_issue_value.
  - exists entry. split; [exact Hcreate | split].
    + apply Htype. reflexivity.
    + apply (Hdesc "preamble missing" "missing period")%string. reflexivity.
Defined.




Lemma empty_suggestion_on_sample :
  Json.loads (arguments empty_call) = Ok (VDict empty_args)
  /\ create_suggestion (VDict empty_args) = Ok None
  /\ dispatch Json.loads [empty_call; diagram_call] ([], []) =
       dispatch Json.loads [diagram_call] ([], []).
Proof.
  split; [vm_compute; reflexivity |].
  destruct (empty_suggestion_skipped Json.loads empty_call empty_args)
    as [Hcreate [_ [Hdrop _]]].
  - reflexivity.
  - vm_compute; reflexivity.
  - right. reflexivity.
  - left. reflexivity.
  - split; [exact Hcreate | exact (Hdrop [] [diagram_call] ([], []))].
Defined.

(** C7, where the code departs from it.  The arguments of the first
    invocation are cut off inside an integer literal of 4301 digits: they
    are not JSON, and [json.loads] raises a plain [ValueError] from [int]
    on the literal, which [except json.JSONDecodeError] does not catch.
    The review cycle yields nothing and ends with that exception, and the
    entry of the valid suggestion that follows is lost; without the first
    invocation the cycle yields that entry. *)
Theorem oversized_number_aborts_review :
  collect_function_calls oversized_then_valid_stream = [oversized_call; valid_call]
  /\ Json.loads (arguments oversized_call) = Raise ValueError
  /\ Json.loads (arguments valid_call) = Ok (VDict (suggestion_args paired_issues))
  /\ review_document_with_functions Json.loads oversized_then_valid_stream =
       {| yielded := []; raised := Some ValueError |}
  /\ exists entry,
       create_suggestion (VDict (suggestion_args paired_issues)) = Ok (Some entry)
       /\ review_document_with_functions Json.loads valid_only_stream =
            {| yielded := [[Dumps false (VDict [("issues", VList [entry]);
                                               ("diagram_insertions", VList [])])]];
               raised := None |}.
Proof.
  split; [vm_compute; reflexivity |].
  split; [vm_compute; reflexivity |].
  split; [vm_compute; reflexivity |].
  split; [vm_compute; reflexivity |].
  eexists. split; vm_compute; reflexivity.
Qed.

(** C9, where the code departs from it.  The stream completes as one
    [insert_diagram] invocation whose arguments parse, to an object whose
    [insert_after_text] is [null]: the insertion is built with the
    defaults and appended, but the log line that follows slices the anchor
    text and raises [TypeError], which is not caught, so that the review
    cycle yields nothing.  The chat cycle, which has no such log line,
    yields the insertion for the same stream. *)
Theorem null_anchor_diagram_aborts_review :
  collect_function_calls null_anchor_only_stream = [null_anchor_call]
  /\ Json.loads (arguments null_anchor_call) = Ok (VDict null_anchor_args)
  /\ diagram_insertion (VDict null_anchor_args) =
       Ok (VDict [("insert_after_text", VNone);
                  ("mermaid_syntax", VStr "graph TD; A-->B");
                  ("diagram_type", VStr "flowchart");
                  ("title", VStr "")])
  /\ review_document_with_functions Json.loads null_anchor_only_stream =
       {| yielded := []; raised := Some TypeError |}
  /\ chat_with_document_context Json.loads null_anchor_only_stream =
       {| yielded := [[Lit "DIAGRAM_INSERT:";
                       Dumps true (VDict [("insert_after_text", VNone);
                                          ("mermaid_syntax", VStr "graph TD; A-->B");
                                          ("diagram_type", VStr "flowchart");
                                          ("title", VStr "")])]];
          raised := None |}.
Proof.
  repeat split; vm_compute; reflexivity.
Qed.


(** ** The further properties on concrete streams *)

Lemma ill_typed_issue_on_sample :
  forallb well_shaped [VDict [("type", VStr "Structure"); ("description", VInt 7)]] = false
  /\ exists e, create_suggestion (VDict ill_typed_args) = Raise e.
Proof.
  split; [reflexivity |].
  apply (proj2 (merger_accepts_exactly_well_shaped ill_typed_args
                  [VDict [("type", VStr "Structure"); ("description", VInt 7)]]
                  eq_refl ltac:(discriminate))).
  reflexivity.
Defined.

Lemma sparse_issues_on_sample :
  create_suggestion (VDict sparse_args) =
    Ok (Some (VDict [("type", VStr "Structure & Ambiguity & ");
                     ("severity", VStr "medium");
                     ("paragraph", VInt 1);
                     ("description", VStr " |  | vague term");
                     ("text", VStr "a eraser");
                     ("suggestion", VStr "");
                     ("originalText", VStr "a eraser");
                     ("replaceTo", VStr "");
                     ("issues", VList sparse_items)]))
  /\ exists before top after,
       map item_severity sparse_items = before ++ top :: after /\
       Forall (fun x => severity_rank x < severity_rank top) before /\
       Forall (fun x => severity_rank x <= severity_rank top) after /\
       create_suggestion (VDict sparse_args) = Ok (Some (merged_entry sparse_args sparse_items top)).
Proof.
  split; [vm_compute; reflexivity |].
  apply (merged_entry_with_defaults sparse_args sparse_items).
  - reflexivity.
  - discriminate.
  - reflexivity.
Defined.

Lemma entry_shape_on_sample :
  exists entry,
    create_suggestion (VDict legacy_args) = Ok (Some entry)
    /\ exists entries items top,
         VDict legacy_args = VDict entries /\
         entry = merged_entry entries items top /\
         items <> [] /\
         forallb is_object items = true /\
         In top (map item_severity items).
Proof.
  eexists. split; [vm_compute; reflexivity |].
  apply (entry_shape (VDict legacy_args)). vm_compute; reflexivity.
Defined.

Lemma dispatch_concatenates_on_sample :
  exists issue insertion,
    dispatch Json.loads [valid_call] ([], []) = Ok ([issue], [])
    /\ dispatch Json.loads [diagram_call] ([], []) = Ok ([], [insertion])
    /\ dispatch Json.loads [valid_call; diagram_call] ([], []) = Ok ([issue], [insertion]).
Proof.
  eexists. eexists.
  split; [vm_compute; reflexivity | split; [vm_compute; reflexivity |]].
  match goal with
  | |- _ = Ok (?issues, ?insertions) =>
      refine (proj1 (dispatch_concatenates Json.loads [valid_call] [diagram_call]
                       issues [] [] insertions _ _))
  end; vm_compute; reflexivity.
Defined.

Lemma relevant_calls_on_sample :
  not_skipped Json.loads (collect_function_calls mixed_stream) = [valid_call; diagram_call]
  /\ review_document_with_functions Json.loads mixed_stream
     = review_document_with_functions Json.loads relevant_only_stream.
Proof.
  split; [vm_compute; reflexivity |].
  apply (review_depends_on_relevant_calls Json.loads mixed_stream relevant_only_stream).
  vm_compute; reflexivity.
Defined.

Lemma array_arguments_on_sample :
  Json.loads (arguments array_call) = Ok (VList [])
  /\ review_document_with_functions Json.loads valid_then_array_stream =
       {| yielded := []; raised := Some AttributeError |}.
Proof.
  split; [reflexivity |].
  eapply (non_object_arguments_abort_review Json.loads valid_then_array_stream
            [valid_call] [] array_call (VList [])).
  - vm_compute; reflexivity.
  - vm_compute; reflexivity.
  - left. reflexivity.
  - reflexivity.
  - reflexivity.
Defined.

Lemma null_anchor_on_sample :
  Json.loads (arguments null_anchor_call) = Ok (VDict null_anchor_args)
  /\ exists insertion,
       diagram_insertion (VDict null_anchor_args) = Ok insertion /\
       review_document_with_functions Json.loads null_anchor_stream =
         {| yielded := []; raised := Some TypeError |} /\
       chat_with_document_context Json.loads null_anchor_stream =
         {| yielded := texts null_anchor_stream
                       ++ [[Lit "DIAGRAM_INSERT:"; Dumps true insertion]];
            raised := None |}.
Proof.
  split; [vm_compute; reflexivity |].
  apply (unsliceable_anchor_review_and_chat Json.loads null_anchor_stream
           null_anchor_call null_anchor_args VNone).
  - vm_compute; reflexivity.
  - reflexivity.
  - vm_compute; reflexivity.
  - reflexivity.
  - reflexivity.
  - reflexivity.
Defined.

Lemma split_diagram_on_sample :
  Json.loads "" = Raise JSONDecodeError
  /\ chat_with_user Json.loads split_diagram_stream =
       {| yielded := [[Lit "Here is a diagram."]]; raised := None |}
  /\ chat_with_document_context Json.loads split_diagram_stream =
       {| yielded := [[Lit "Here is a diagram."]; mermaid_block (VStr "graph TD; A-->B")];
          raised := None |}.
Proof.
  split; [reflexivity |].
  destruct (chat_with_user_renders_no_split_diagram Json.loads split_diagram_stream)
    as [Huser Hcontext].
  - intros tc Hin Hname. cbn in Hin.
    destruct Hin as [<- | [<- | [<- | []]]]; try discriminate.
    exists ""%string. split; reflexivity.
  - split; [exact Huser |].
    apply (Hcontext {| name := "create_diagram";
                       arguments := Json.object [("mermaid_syntax",
                                                  Json.q "graph TD; A-->B")] |}
                    [("mermaid_syntax", VStr "graph TD; A-->B")]).
    + vm_compute; reflexivity.
    + reflexivity.
    + vm_compute; reflexivity.
Defined.

Lemma chat_ignores_suggestions_on_sample :
  chat_with_document_context Json.loads chat_sample_with_suggestion_stream
  = chat_with_document_context Json.loads chat_sample_stream.
Proof.
  apply (chat_depends_on_text_and_diagram_calls Json.loads).
  - reflexivity.
  - vm_compute; reflexivity.
Defined.

Lemma number_arguments_on_sample :
  Json.loads (arguments number_call) = Ok (VInt 42)
  /\ chat_with_document_context Json.loads suggestion_then_number_stream =
       {| yielded := texts suggestion_then_number_stream
                     ++ [mermaid_block (VStr "graph TD; A-->B")];
          raised := Some AttributeError |}.
Proof.
  split; [reflexivity |].
  apply (non_object_arguments_cut_chat_short Json.loads suggestion_then_number_stream
           [valid_call; chat_diagram_call] [diagram_call] number_call (VInt 42)).
  - vm_compute; reflexivity.
  - vm_compute; reflexivity.
  - left. reflexivity.
  - reflexivity.
  - reflexivity.
Defined.

Lemma marked_text_on_sample :
  chat_with_ai Json.loads sample_runtime (Some "sk-test") None sample_request
               sentinel_text_stream =
    Returned
      (VDict [("response", VStr "Use the marker  Done.");
              ("diagram_insertions",
               VList [VList [VInt 1];
                      VDict [("insert_after_text",
                              VStr "wherein the eraser is removable.");
                             ("mermaid_syntax", VStr "graph TD; A-->B");
                             ("diagram_type", VStr "flowchart");
                             ("title", VStr "")]])]).
Proof.
  refine (eq_trans
            (chat_response_excludes_marked_chunks Json.loads sample_runtime
               (Some "sk-test"%string) None sample_request sentinel_text_stream
               (yielded (chat_with_document_context Json.loads sentinel_text_stream))
               eq_refl _ _) _).
  - vm_compute; reflexivity.
  - vm_compute; reflexivity.
  - vm_compute; reflexivity.
Defined.

Lemma chat_endpoint_on_sample :
  chat_with_ai Json.loads sample_runtime (Some "sk-test") None sample_request
               chat_sample_stream =
    Returned
      (VDict [("response",
               VStr ("Here you are." ++ newline ++ "```mermaid" ++ newline
                     ++ "graph TD; A-->B" ++ newline ++ "```" ++ newline));
              ("diagram_insertions",
               VList [VDict [("insert_after_text",
                              VStr "wherein the eraser is removable.");
                             ("mermaid_syntax", VStr "graph TD; A-->B");
                             ("diagram_type", VStr "flowchart");
                             ("title", VStr "")]])])
  /\ chat_with_ai Json.loads sample_runtime (Some "sk-test") None sample_request
                  text_only_stream =
       Returned (VDict [("response", VStr "Reviewing the claims.")]).
Proof.
  assert (Hp : payloads (yielded (chat_dispatch Json.loads
                            (collect_function_calls chat_sample_stream) []))
               = [VDict [("insert_after_text", VStr "wherein the eraser is removable.");
                         ("mermaid_syntax", VStr "graph TD; A-->B");
                         ("diagram_type", VStr "flowchart");
                         ("title", VStr "")]]) by (vm_compute; reflexivity).
  split.
  - refine (eq_trans (chat_endpoint_end_to_end Json.loads sample_runtime
                        (Some "sk-test"%string) None sample_request chat_sample_stream
                        _ eq_refl _ _ _ _) _).
    + vm_compute; reflexivity.
    + vm_compute; reflexivity.
    + intros s Hin. cbn in Hin. destruct Hin as [Heq | []].
      injection Heq as <-. reflexivity.
    + rewrite Hp. constructor; [vm_compute; reflexivity | constructor].
    + vm_compute; reflexivity.
  - refine (eq_trans (chat_endpoint_end_to_end Json.loads sample_runtime
                        (Some "sk-test"%string) None sample_request text_only_stream
                        _ eq_refl _ _ _ _) _).
    + vm_compute; reflexivity.
    + vm_compute; reflexivity.
    + intros s Hin. cbn in Hin. destruct Hin as [Heq | []].
      injection Heq as <-. reflexivity.
    + constructor.
    + vm_compute; reflexivity.
Defined.

Lemma enhanced_messages_on_sample :
  exists enhanced,
    enhanced_messages sample_runtime sample_messages "<p>1. A pencil.</p>" = Ok enhanced
    /\ map (fun m => message_get m "role" "") enhanced
       = ["system"; "user"; "assistant"; "user"]%string
    /\ map (fun m => message_get m "content" "") (tl enhanced)
       = map (fun m => message_get m "content" "") sample_messages.
Proof.
  eexists. split; [vm_compute; reflexivity |]. split; [reflexivity |].
  match goal with
  | |- map _ (tl ?enhanced) = _ =>
      destruct (enhanced_messages_keep_the_conversation
                  sample_runtime sample_messages "<p>1. A pencil.</p>" enhanced)
        as [_ Hhistory]; [vm_compute; reflexivity |]
  end.
  destruct Hhistory as [_ [_ [Hcontent _]]]; [discriminate | exact Hcontent].
Defined.

Lemma review_channel_on_sample :
  map event_type (websocket_enhanced_endpoint Json.loads sample_runtime
                    (Some "sk-test") None sample_cycles)
  = ["connection_success";
     "processing_start"; "validation_error";
     "processing_start"; "ai_suggestions";
     "processing_start"; "ai_error"]%string.
Proof.
  refine (proj1 (one_reply_per_document Json.loads sample_runtime
                   (Some "sk-test"%string) None sample_cycles _) eq_refl).
  repeat constructor; intros st Hd; vm_compute in Hd;
    try discriminate; injection Hd as <-; vm_compute; reflexivity.
Defined.


Lemma dispatch_counts_on_sample :
  exists issues insertions,
    dispatch Json.loads (collect_function_calls mixed_stream) ([], []) = Ok (issues, insertions)
    /\ (List.length issues
        <= List.length (named_calls "create_suggestion" (collect_function_calls mixed_stream)))%nat
    /\ List.length insertions
       = List.length (filter (relevant Json.loads)
                             (named_calls "insert_diagram" (collect_function_calls mixed_stream))).
Proof.
  eexists. eexists. split; [vm_compute; reflexivity |].
  apply (dispatch_counts Json.loads). vm_compute; reflexivity.
Defined.

Lemma whole_delivery_on_sample :
  delivered_whole (fragments interleaved_stream) =
    [mkToolCall 0 (Some "create_suggestion") (Some "{}");
     mkToolCall 1 (Some "insert_diagram") (Some "[]")]
  /\ collect_function_calls (as_stream (delivered_whole (fragments interleaved_stream)))
     = collect_function_calls interleaved_stream.
Proof.
  split; [reflexivity |].
  exact (proj1 (whole_delivery_collects_the_same Json.loads interleaved_stream eq_refl)).
Defined.

Lemma oversized_number_on_sample :
  Json.loads (arguments oversized_call) = Raise ValueError
  /\ review_document_with_functions Json.loads oversized_then_valid_stream =
       {| yielded := []; raised := Some ValueError |}.
Proof.
  split; [vm_compute; reflexivity |].
  refine (proj1 (other_parser_exceptions_end_the_cycle Json.loads
                   oversized_then_valid_stream [] [valid_call] oversized_call
                   ValueError _ _ _) ([], []) (or_introl eq_refl) eq_refl).
  - vm_compute; reflexivity.
  - vm_compute; reflexivity.
  - discriminate.
Defined.
